(** * The per-worker dispatch loop of the inference server

    A shallow embedding of
    [inference/server/oasst_inference_server/routes/workers.py]:
    the in-flight ledger ([work_request_map]), the event-racing loop of
    [handle_worker], the response handlers, the recovery pass of the
    [except] clause and the clean-up of the [finally] clause.

    Python objects that the module only talks to (the message store, the
    queues, the websocket, the session registry, the logger) are kept
    external: every call to them is recorded in a trace, and an
    environment decides, from the trace so far, whether the call returns
    or raises. *)

From Stdlib Require Import String List ZArith Bool Lia DecimalString.
Import ListNotations.
Open Scope string_scope.
Open Scope list_scope.

Set Implicit Arguments.

(** ** Python exceptions *)

(** The exceptions the module raises itself, the ones Python raises on
    its behalf, and two classes for whatever a collaborator raises:
    [ExternalError] for any subclass of [Exception], [CancelledError] for
    [asyncio.CancelledError], which derives from [BaseException] only. *)
Inductive exn : Type :=
| RuntimeError (msg : string)
| TypeError (msg : string)
| UnboundLocalError (msg : string)
| KeyError (key : string)
| WorkRequestNotFound (request_id : option string)
| ExternalError (msg : string)
| CancelledError.

(** [isinstance(e, Exception)] *)
Definition is_Exception (e : exn) : bool :=
  match e with
  | CancelledError => false
  | _ => true
  end.

(** [repr] of an optional string, as the f-string [{request_id=}] prints it. *)
Definition repr_opt (o : option string) : string :=
  match o with
  | None => "None"
  | Some s => ("'" ++ s ++ "'")%string
  end.

(** [str(e)] *)
Definition str (e : exn) : string :=
  match e with
  | RuntimeError msg => msg
  | TypeError msg => msg
  | UnboundLocalError msg => msg
  | KeyError key => ("'" ++ key ++ "'")%string
  | WorkRequestNotFound request_id =>
      ("Work request not found: request_id=" ++ repr_opt request_id)%string
  | ExternalError msg => msg
  | CancelledError => ""
  end.

(** ** Python dictionaries with string keys

    A [dict] keeps its keys in insertion order and the recovery pass
    iterates over [values()], so the ledger is an association list with
    the operations the module uses. *)
Module Dict.

Definition t (V : Type) : Type := list (string * V).

Definition empty {V} : t V := [].

(** [d.get(k)] *)
Fixpoint get {V} (k : string) (d : t V) : option V :=
  match d with
  | [] => None
  | (k', v) :: rest => if String.eqb k k' then Some v else get k rest
  end.

(** [d[k] = v]: an existing key keeps its place, a new one goes last. *)
Fixpoint set {V} (k : string) (v : V) (d : t V) : t V :=
  match d with
  | [] => [(k, v)]
  | (k', v') :: rest =>
      if String.eqb k k' then (k', v) :: rest else (k', v') :: set k v rest
  end.

(** [del d[k]]: [None] stands for the [KeyError] of a missing key. *)
Fixpoint del {V} (k : string) (d : t V) : option (t V) :=
  match d with
  | [] => None
  | (k', v') :: rest =>
      if String.eqb k k' then Some rest
      else option_map (cons (k', v')) (del k rest)
  end.

(** [d.values()] *)
Definition values {V} (d : t V) : list V := map snd d.

(** [d.keys()] *)
Definition keys {V} (d : t V) : list string := map fst d.

(** [len(d)] *)
Definition len {V} (d : t V) : nat := length d.

End Dict.

(** ** Data model *)

(** [inference.WorkRequest]: only its [id] is read by this module. *)
Record WorkRequest : Type := { id : string }.

(** [WorkRequestContainer].  [start_time] is written once by the default
    factory and never read; it is left out. *)
Record WorkRequestContainer : Type := {
  work_request : WorkRequest;
  message_id : string;
  num_responses : nat
}.

Definition WorkRequestContainerMap : Type := Dict.t WorkRequestContainer.

(** [inference.WorkerConfig], the two fields the loop reads. *)
Record WorkerConfig : Type := {
  compat_hash : string;
  max_parallel_requests : Z
}.

(** [worker_utils.WorkerSession], the fields [_update_session] writes. *)
Record WorkerSession : Type := {
  requests_in_flight : nat;
  metrics : option string
}.

(** [inference.WorkerResponse]: the union of the response classes, told
    apart by the string [response_type].  [raw] is what [response.json()]
    gives. *)
Record WorkerResponse : Type := {
  response_type : string;
  request_id : option string;
  response_metrics : string;
  text : string;
  error : string;
  raw : string
}.

(** The futures of [pending_futures]: each [asyncio.ensure_future] makes a
    new object, identified here by a serial number. *)
Inductive future_kind : Type := Dequeue | Receive.

Record future : Type := { fid : nat; fkind : future_kind }.

Definition future_eqb (f g : future) : bool := Nat.eqb (fid f) (fid g).

Definition is_dequeue (f : future) : bool :=
  match fkind f with Dequeue => true | Receive => false end.

(** ** External calls and the trace *)

(** What is put on the per-message output channel. *)
Inductive packet : Type :=
| TokenPacket (json : string)
| FinishedPacket (message : string).

(** Calls to collaborators.  A call on the message store stands for the
    whole [async with] block around it. *)
Inductive call : Type :=
| AddWorkerConnectEvent (worker_id : string)
| StoreWorkerSession (worker_id : string) (session : WorkerSession)
| StartWork (message_id worker_id : string)
| BuildWorkRequest (message_id : string)
| SendWorkRequest (work_request : WorkRequest)
| SendPing
| ResetWork (message_id : string)
| AbortWork (message_id reason : string)
| CompleteWork (message_id content : string)
| WorkQueueEnqueue (message_id : string)
| MessageQueueEnqueue (message_id : string) (payload : packet)
| RedisClose
| DeleteWorkerSession (worker_id : string)
| Cancel (ftr : future)
| WebsocketClose.

(** The answer to a call: it raises, or it returns.  The returned string
    is the message id for [StartWork], the request id for
    [BuildWorkRequest], the stored message for [CompleteWork], and is
    ignored for the others. *)
Inductive answer : Type :=
| Raise (e : exn)
| Return (v : string).

(** Log lines of level warning and above. *)
Inductive logmsg : Type :=
| LogReceivedNone
| LogHandlerError (err : string)
| LogMarkingPending (message_id : string)
| LogAborting (message_id : string)
| LogResetError (message_id err : string)
| LogRedisCloseError
| LogDeleteSessionError
| LogCancelError
| LogWebsocketCloseError
| LogSendError (err : string)
| LogGotError (response : WorkerResponse)
| LogGotGeneralError (response : WorkerResponse).

Inductive event : Type :=
| Called (c : call) (a : answer)
| Logged (l : logmsg).

(** The environment: the collaborators' behaviour, given what happened so
    far. *)
Definition environment : Type := list event -> call -> answer.

(** ** State of one connection and the monad of the handlers *)

Record state : Type := {
  work_request_map : WorkRequestContainerMap;
  pending_futures : list future;
  worker_session : WorkerSession;
  next_future : nat;
  trace : list event
}.

Definition with_map (m : WorkRequestContainerMap) (s : state) : state :=
  {| work_request_map := m;
     pending_futures := pending_futures s;
     worker_session := worker_session s;
     next_future := next_future s;
     trace := trace s |}.

Definition with_pending (p : list future) (s : state) : state :=
  {| work_request_map := work_request_map s;
     pending_futures := p;
     worker_session := worker_session s;
     next_future := next_future s;
     trace := trace s |}.

Definition with_session (w : WorkerSession) (s : state) : state :=
  {| work_request_map := work_request_map s;
     pending_futures := pending_futures s;
     worker_session := w;
     next_future := next_future s;
     trace := trace s |}.

Definition with_next_future (n : nat) (s : state) : state :=
  {| work_request_map := work_request_map s;
     pending_futures := pending_futures s;
     worker_session := worker_session s;
     next_future := n;
     trace := trace s |}.

Definition with_trace (t : list event) (s : state) : state :=
  {| work_request_map := work_request_map s;
     pending_futures := pending_futures s;
     worker_session := worker_session s;
     next_future := next_future s;
     trace := t |}.

(** How a piece of code ends: with a value, with an exception, or
    suspended for ever at an [await] (the run is cut there). *)
Inductive result (A : Type) : Type :=
| Val (a : A)
| Exc (e : exn)
| Suspended.

Arguments Exc {A} e.
Arguments Suspended {A}.

Definition M (A : Type) : Type := state -> result A * state.

Definition ret {A} (a : A) : M A := fun s => (Val a, s).

Definition raise {A} (e : exn) : M A := fun s => (Exc e, s).

Definition bind {A B} (m : M A) (k : A -> M B) : M B :=
  fun s =>
    match m s with
    | (Val a, s') => k a s'
    | (Exc e, s') => (Exc e, s')
    | (Suspended, s') => (Suspended, s')
    end.

Notation "x <- m ;; k" := (bind m (fun x => k))
  (at level 61, m at next level, right associativity).
Notation "m ;; k" := (bind m (fun _ => k))
  (at level 61, right associativity).

(** [try: m finally: f] *)
Definition try_finally {A} (m : M A) (f : M unit) : M A :=
  fun s =>
    match m s with
    | (Suspended, s') => (Suspended, s')
    | (r, s') =>
        match f s' with
        | (Val _, s'') => (r, s'')
        | (Exc e, s'') => (Exc e, s'')
        | (Suspended, s'') => (Suspended, s'')
        end
    end.

(** [try: m except Exception as e: h e] *)
Definition try_except {A} (m : M A) (h : exn -> M A) : M A :=
  fun s =>
    match m s with
    | (Exc e, s') => if is_Exception e then h e s' else (Exc e, s')
    | other => other
    end.

Definition get_state : M state := fun s => (Val s, s).

Definition modify (f : state -> state) : M unit := fun s => (Val tt, f s).

Definition log (l : logmsg) : M unit :=
  modify (fun s => with_trace (trace s ++ [Logged l]) s).

(** ** The ledger lookup *)

(** [get_work_request_container] *)
Definition get_work_request_container
    (work_request_map : WorkRequestContainerMap) (request_id : option string)
  : exn + WorkRequestContainer :=
  match request_id with
  | None => inl (WorkRequestNotFound request_id)
  | Some rid =>
      match Dict.get rid work_request_map with
      | None => inl (WorkRequestNotFound request_id)
      | Some container => inr container
      end
  end.

(** ** What the scheduler hands to the loop *)

(** [ftr.result()] of a completed future: it raises, or gives [None], a
    [(queue_name, message_id)] tuple, or a parsed worker response. *)
Inductive completion : Type :=
| Raised (e : exn)
| ResultNone
| ResultTuple (queue_name message_id : string)
| ResultResponse (r : WorkerResponse).

(** One [await asyncio.wait(...)]: cancelled, or the futures found done,
    in the order in which the set [done] is iterated (empty on timeout). *)
Inductive wait_outcome : Type :=
| WaitRaised (e : exn)
| WaitDone (done : list (future * completion)).

(** One turn of [while True]: the websocket state seen at the top, then
    the wait. *)
Record cycle : Type := {
  client_disconnected : bool;
  waited : wait_outcome
}.

(** ** The connection handler *)

(** [RuntimeError("Received None from queue. This should never happen.")] *)
Definition none_from_queue : exn :=
  RuntimeError "Received None from queue. This should never happen.".

Section Connection.

Variable env : environment.
Variable worker_id : string.
Variable worker_config : WorkerConfig.

(** A call to a collaborator: ask the environment, record the answer. *)
Definition ext (c : call) : M string :=
  fun s =>
    let a := env (trace s) c in
    let s' := with_trace (trace s ++ [Called c a]) s in
    match a with
    | Raise e => (Exc e, s')
    | Return v => (Val v, s')
    end.

(** [get_work_request_container(work_request_map, request_id)] on the
    connection's ledger. *)
Definition lookup (request_id : option string) : M WorkRequestContainer :=
  fun s =>
    match get_work_request_container (work_request_map s) request_id with
    | inl e => (Exc e, s)
    | inr container => (Val container, s)
    end.

(** [container.num_responses += 1] on the object stored under
    [request_id]: the dictionary holds the very object that the lookup
    returned. *)
Definition increment_num_responses (request_id : option string)
    (container : WorkRequestContainer) : M unit :=
  match request_id with
  | Some rid =>
      modify (fun s =>
        with_map
          (Dict.set rid
             {| work_request := work_request container;
                message_id := message_id container;
                num_responses := S (num_responses container) |}
             (work_request_map s)) s)
  | None => ret tt
  end.

(** [del work_request_map[request_id]] *)
Definition del_entry (request_id : option string) : M unit :=
  fun s =>
    match request_id with
    | Some rid =>
        match Dict.del rid (work_request_map s) with
        | Some m => (Val tt, with_map m s)
        | None => (Exc (KeyError rid), s)
        end
    | None => (Exc (KeyError "None"), s)
    end.

(** [_update_session] *)
Definition _update_session (metrics : string) : M unit :=
  s <- get_state ;;
  let session :=
    {| requests_in_flight := Dict.len (work_request_map s);
       metrics := Some metrics |} in
  modify (with_session session) ;;
  ext (StoreWorkerSession worker_id session) ;;
  ret tt.

(** [ftrs.add(asyncio.ensure_future(...))] *)
Definition add_future (k : future_kind) : M unit :=
  modify (fun s =>
    with_next_future (S (next_future s))
      (with_pending
         (pending_futures s ++ [{| fid := next_future s; fkind := k |}]) s)).

(** [_add_dequeue(pending_futures)] *)
Definition _add_dequeue : M unit :=
  s <- get_state ;;
  let requests_in_progress := Dict.len (work_request_map s) in
  if (Z.of_nat requests_in_progress <? max_parallel_requests worker_config)%Z
  then add_future Dequeue
  else ret tt.

(** [_add_receive(pending_futures)] *)
Definition _add_receive : M unit := add_future Receive.

(** [initiate_work_for_message] *)
Definition initiate_work_for_message (message_id : string) : M WorkRequest :=
  message <- ext (StartWork message_id worker_id) ;;
  request <- ext (BuildWorkRequest message) ;;
  let work_request := {| id := request |} in
  try_except
    (ext (SendWorkRequest work_request) ;; ret tt)
    (fun e =>
       log (LogSendError (str e)) ;;
       ext (ResetWork message_id) ;;
       ext (WorkQueueEnqueue message_id) ;;
       raise e) ;;
  ret work_request.

(** [handle_token_response] *)
Definition handle_token_response (response : WorkerResponse) : M unit :=
  work_response_container <- lookup (request_id response) ;;
  ext (MessageQueueEnqueue (message_id work_response_container)
         (TokenPacket (raw response))) ;;
  increment_num_responses (request_id response) work_response_container.

(** [handle_generated_text_response] *)
Definition handle_generated_text_response (response : WorkerResponse)
  : M unit :=
  work_response_container <- lookup (request_id response) ;;
  let message_id := message_id work_response_container in
  message <- ext (CompleteWork message_id (text response)) ;;
  ext (MessageQueueEnqueue message_id (FinishedPacket message)) ;;
  del_entry (request_id response).

(** [handle_error_response] *)
Definition handle_error_response (response : WorkerResponse) : M unit :=
  log (LogGotError response) ;;
  work_response_container <- lookup (request_id response) ;;
  ext (AbortWork (message_id work_response_container) (error response)) ;;
  del_entry (request_id response).

(** [handle_general_error_response] *)
Definition handle_general_error_response (response : WorkerResponse)
  : M unit :=
  log (LogGotGeneralError response).

(** The [match worker_response.response_type] of [handle_worker]. *)
Definition route (worker_response : WorkerResponse) : M unit :=
  let kind := response_type worker_response in
  if String.eqb kind "pong" then
    _update_session (response_metrics worker_response)
  else if String.eqb kind "token" then
    handle_token_response worker_response
  else if String.eqb kind "generated_text" then
    handle_generated_text_response worker_response ;;
    _update_session (response_metrics worker_response)
  else if String.eqb kind "error" then
    handle_error_response worker_response ;;
    _update_session (response_metrics worker_response)
  else if String.eqb kind "general_error" then
    handle_general_error_response worker_response ;;
    _update_session (response_metrics worker_response)
  else
    raise (RuntimeError ("Unknown response type: " ++ kind)%string).

(** The branch taken for a dequeued [(queue_name, message_id)]. *)
Definition dispatch (message_id : string) : M unit :=
  try_finally
    (work_request <- initiate_work_for_message message_id ;;
     modify (fun s =>
       with_map
         (Dict.set (id work_request)
            {| work_request := work_request;
               message_id := message_id;
               num_responses := 0 |}
            (work_request_map s)) s))
    _add_dequeue.

(** The branch taken for a worker response. *)
Definition receive (worker_response : WorkerResponse) : M unit :=
  try_finally
    (route worker_response)
    (s <- get_state ;;
     (if Nat.eqb (length (pending_futures s)) 0 then _add_dequeue
      else ret tt) ;;
     _add_receive).

(** The body of [for ftr in done]. *)
Definition process (c : completion) : M unit :=
  match c with
  | Raised e => raise e
  | ResultNone => log LogReceivedNone ;; raise none_from_queue
  | ResultTuple _ message_id => dispatch message_id
  | ResultResponse worker_response => receive worker_response
  end.

Fixpoint for_done (done : list (future * completion)) : M unit :=
  match done with
  | [] => ret tt
  | (_, c) :: rest => process c ;; for_done rest
  end.

(** [(done, pending_futures) = await asyncio.wait(pending_futures, ...)] *)
Definition asyncio_wait (w : wait_outcome)
  : M (list (future * completion)) :=
  match w with
  | WaitRaised e => raise e
  | WaitDone done =>
      modify (fun s =>
        with_pending
          (filter (fun f => negb (existsb (future_eqb f) (map fst done)))
             (pending_futures s)) s) ;;
      ret done
  end.

(** [raise WorkerDisconnectException("Worker disconnected")]: the class
    takes no argument, so the call itself raises [TypeError]. *)
Definition disconnect_error : exn :=
  TypeError
    "WorkerDisconnectException.__init__() takes 1 positional argument but 2 were given".

(** [while True]: one turn per element of the script; when the script
    is used up the loop stays suspended in its wait. *)
Fixpoint main_loop (script : list cycle) : M unit :=
  match script with
  | [] => fun s => (Suspended, s)
  | c :: rest =>
      (if client_disconnected c then raise disconnect_error else ret tt) ;;
      done <- asyncio_wait (waited c) ;;
      for_done done ;;
      (match done with
       | [] => ext SendPing ;; ret tt
       | _ :: _ => ret tt
       end) ;;
      main_loop rest
  end.

(** The body of [for container in work_request_map.values()].  The
    inner [except Exception as e] rebinds the name [e] of the outer
    clause and unbinds it when it ends, so the loop carries the binding:
    [Some] while [e] is bound, [None] afterwards, when reading [e] raises
    [UnboundLocalError] (with the message of Python 3.11). *)
Definition recover (container : WorkRequestContainer) (e : option exn)
  : M (option exn) :=
  let message_id := message_id container in
  try_except
    ((if Nat.eqb (num_responses container) 0 then
        log (LogMarkingPending message_id) ;;
        ext (ResetWork message_id) ;;
        ext (WorkQueueEnqueue message_id) ;;
        ret tt
      else
        log (LogAborting message_id) ;;
        match e with
        | Some e0 => ext (AbortWork message_id (str e0)) ;; ret tt
        | None =>
            raise (UnboundLocalError
              "cannot access local variable 'e' where it is not associated with a value")
        end) ;;
     ret e)
    (fun e' => log (LogResetError message_id (str e')) ;; ret None).

Fixpoint recover_all (containers : list WorkRequestContainer)
    (e : option exn) : M unit :=
  match containers with
  | [] => ret tt
  | container :: rest => e' <- recover container e ;; recover_all rest e'
  end.

(** The [except Exception as e] clause of [handle_worker]. *)
Definition recovery_handler (e : exn) : M unit :=
  log (LogHandlerError (str e)) ;;
  s <- get_state ;;
  recover_all (Dict.values (work_request_map s)) (Some e).

(** [try: c except Exception: logger.warning(...)] *)
Definition best_effort (c : call) (l : logmsg) : M unit :=
  try_except (ext c ;; ret tt) (fun _ => log l).

Fixpoint cancel_all (ftrs : list future) : M unit :=
  match ftrs with
  | [] => ret tt
  | ftr :: rest => best_effort (Cancel ftr) LogCancelError ;; cancel_all rest
  end.

(** The [finally] clause of [handle_worker]. *)
Definition cleanup : M unit :=
  best_effort RedisClose LogRedisCloseError ;;
  best_effort (DeleteWorkerSession worker_id) LogDeleteSessionError ;;
  s <- get_state ;;
  cancel_all (pending_futures s) ;;
  best_effort WebsocketClose LogWebsocketCloseError.

(** The [try] / [except Exception] / [finally] of [handle_worker]
    around a body. *)
Definition guarded (body : M unit) : M unit :=
  try_finally (try_except body recovery_handler) cleanup.

(** What [handle_worker] does inside its [try], before the loop. *)
Definition startup : M unit :=
  ext (AddWorkerConnectEvent worker_id) ;;
  s <- get_state ;;
  ext (StoreWorkerSession worker_id (worker_session s)) ;;
  _add_dequeue ;;
  _add_receive.

(** The body of the [try]: the start-up, then the loop. *)
Definition connection (script : list cycle) : M unit :=
  startup ;; main_loop script.

(** [handle_worker], from the point where the worker's configuration
    has been received. *)
Definition handle_worker (script : list cycle) : M unit :=
  guarded (connection script).

End Connection.

(** The state [handle_worker] starts from. *)
Definition initial_state : state :=
  {| work_request_map := Dict.empty;
     pending_futures := [];
     worker_session := {| requests_in_flight := 0; metrics := None |};
     next_future := 0;
     trace := [] |}.

(** * The vocabulary of the statements *)

(** ** Code that leaves the set of pending futures alone *)

(** [m] neither arms nor drops a future, and does not suspend. *)
Definition keeps_futures {A} (m : M A) : Prop :=
  forall s,
    pending_futures (snd (m s)) = pending_futures s
    /\ next_future (snd (m s)) = next_future s
    /\ fst (m s) <> Suspended.

(** ** Routing by response kind *)

(** The five handling paths of the [match] statement. *)
Inductive handling_path : Type :=
| PongPath
| TokenPath
| GeneratedTextPath
| ErrorPath
| GeneralErrorPath.

(** The [case] pattern of each path. *)
Definition kind_of (p : handling_path) : string :=
  match p with
  | PongPath => "pong"
  | TokenPath => "token"
  | GeneratedTextPath => "generated_text"
  | ErrorPath => "error"
  | GeneralErrorPath => "general_error"
  end.

(** The body of each [case]. *)
Definition run_path (env : environment) (worker_id : string)
    (p : handling_path) (worker_response : WorkerResponse) : M unit :=
  match p with
  | PongPath =>
      _update_session env worker_id (response_metrics worker_response)
  | TokenPath =>
      handle_token_response env worker_response
  | GeneratedTextPath =>
      handle_generated_text_response env worker_response ;;
      _update_session env worker_id (response_metrics worker_response)
  | ErrorPath =>
      handle_error_response env worker_response ;;
      _update_session env worker_id (response_metrics worker_response)
  | GeneralErrorPath =>
      handle_general_error_response worker_response ;;
      _update_session env worker_id (response_metrics worker_response)
  end.

(** The exception of the [case _] branch. *)
Definition unknown_response_type (worker_response : WorkerResponse) : exn :=
  RuntimeError
    ("Unknown response type: " ++ response_type worker_response)%string.

(** The futures left pending by a wait that found [done] completed. *)
Definition still_pending (done : list (future * completion)) (s : state)
  : state :=
  with_pending
    (filter (fun f => negb (existsb (future_eqb f) (map fst done)))
       (pending_futures s)) s.

(** ** Reading a trace *)

(** The calls that were made, in order, whatever their answer. *)
Definition attempted (tr : list event) : list call :=
  flat_map (fun ev => match ev with
                      | Called c _ => [c]
                      | Logged _ => []
                      end) tr.

(** The calls that returned, in order. *)
Definition returned (tr : list event) : list call :=
  flat_map (fun ev => match ev with
                      | Called c (Return _) => [c]
                      | _ => []
                      end) tr.

(** The two log lines with which the recovery pass opens its visit of an
    entry. *)
Definition visit_logs (tr : list event) : list logmsg :=
  flat_map (fun ev => match ev with
                      | Logged (LogMarkingPending m) => [LogMarkingPending m]
                      | Logged (LogAborting m) => [LogAborting m]
                      | _ => []
                      end) tr.

(** The line logged when the recovery pass visits [container]. *)
Definition visit (container : WorkRequestContainer) : logmsg :=
  if Nat.eqb (num_responses container) 0
  then LogMarkingPending (message_id container)
  else LogAborting (message_id container).

(** The calls of the recovery pass. *)
Definition is_recovery_call (c : call) : bool :=
  match c with
  | ResetWork _ | WorkQueueEnqueue _ | AbortWork _ _ => true
  | _ => false
  end.

(** What recovery owes an entry when the loop ended with [e]: reset and
    re-enqueue when no response was seen, abort otherwise. *)
Definition recovery_plan (e : exn) (container : WorkRequestContainer)
  : list call :=
  if Nat.eqb (num_responses container) 0
  then [ResetWork (message_id container);
        WorkQueueEnqueue (message_id container)]
  else [AbortWork (message_id container) (str e)].

(** The collaborators raise nothing but subclasses of [Exception]. *)
Definition raises_only_Exception (env : environment) : Prop :=
  forall tr c e, env tr c = Raise e -> is_Exception e = true.

(** The calls of the recovery pass all return. *)
Definition recovery_calls_return (env : environment) : Prop :=
  forall tr c, is_recovery_call c = true -> exists v, env tr c = Return v.

(** [m], run from [s], ends with [r] and has only appended [delta] to the
    trace. *)
Definition emits {A} (m : M A) (s : state) (r : result A)
    (delta : list event) : Prop :=
  m s = (r, with_trace (trace s ++ delta) s).

(** ** The clean-up of the [finally] clause *)

(** The calls of the clean-up, for a connection whose pending set is that
    of [s]. *)
Definition cleanup_calls (worker_id : string) (s : state) : list call :=
  [RedisClose; DeleteWorkerSession worker_id]
  ++ map Cancel (pending_futures s)
  ++ [WebsocketClose].

(** [m] is a piece of the clean-up: it only appends to the trace, makes no
    recovery call, and, when nothing but [Exception]s are raised, returns
    after making exactly [calls]. *)
Definition cleans (env : environment) (m : M unit)
    (calls : state -> list call) : Prop :=
  forall s,
    exists r delta,
      emits m s r delta
      /\ (forall c, In c (attempted delta) -> is_recovery_call c = false)
      /\ visit_logs delta = []
      /\ r <> Suspended
      /\ (raises_only_Exception env ->
          r = Val tt /\ attempted delta = calls s).

(** ** Concrete connections *)

(** A worker that takes one request at a time. *)
Definition one_at_a_time : WorkerConfig :=
  {| compat_hash := "llama"; max_parallel_requests := 1 |}.

(** Collaborators that never fail: the store hands back the message id
    it was given, and request ids are made from message ids. *)
Definition env_ok : environment :=
  fun _ c =>
    match c with
    | StartWork m _ => Return m
    | BuildWorkRequest m => Return ("req-" ++ m)%string
    | _ => Return ""
    end.

(** The same, with a message store whose [reset_work] fails. *)
Definition env_reset_fails : environment :=
  fun tr c =>
    match c with
    | ResetWork _ => Raise (ExternalError "database unavailable")
    | _ => env_ok tr c
    end.

(** The first two futures of a connection. *)
Definition first_dequeue : future := {| fid := 0; fkind := Dequeue |}.

Definition first_receive : future := {| fid := 1; fkind := Receive |}.

(** The wait finds these futures done. *)
Definition completes (done : list (future * completion)) : cycle :=
  {| client_disconnected := false; waited := WaitDone done |}.

(** The websocket is seen disconnected at the top of the loop. *)
Definition disconnected : cycle :=
  {| client_disconnected := true; waited := WaitDone [] |}.

(** The task running [handle_worker] is cancelled during the wait. *)
Definition cancelled : cycle :=
  {| client_disconnected := false; waited := WaitRaised CancelledError |}.

(** Message [A] is dispatched, then the worker is found disconnected. *)
Definition dispatch_then_disconnect : list cycle :=
  [completes [(first_dequeue, ResultTuple "work" "A")]; disconnected].

(** Message [A] is dispatched, then the handler is cancelled. *)
Definition dispatch_then_cancel : list cycle :=
  [completes [(first_dequeue, ResultTuple "work" "A")]; cancelled].

(** ** The recovery partition *)

(** The recovery partition, for a body run from [s0]: if the body raises
    an [Exception], what follows splits into a recovery part, in which
    the calls made are, entry by entry, the reset and re-enqueue of an
    entry without responses and the abort of an entry with responses, all
    of them returning, and a rest without any recovery call. *)
Definition recovery_partition (env : environment) (worker_id : string)
    (body : M unit) (s0 : state) : Prop :=
  forall e s,
    body s0 = (Exc e, s) ->
    is_Exception e = true ->
    exists r rec fin,
      guarded env worker_id body s0 =
        (r, with_trace (trace s ++ rec ++ fin) s)
      /\ returned rec =
           flat_map (recovery_plan e) (Dict.values (work_request_map s))
      /\ attempted rec =
           flat_map (recovery_plan e) (Dict.values (work_request_map s))
      /\ (forall c, In c (attempted fin) -> is_recovery_call c = false).

(** ** The five steps of termination *)

(** The termination sequence, for a body run from [s0]: if the body
    raises, what follows is (1) a recovery part that visits every entry
    of the ledger and makes only recovery calls, then (2) the close of
    the queue connection, (3) the deletion of the session, (4) the
    cancellation of every pending future and (5) the close of the
    websocket. *)
Definition termination_steps (env : environment) (worker_id : string)
    (body : M unit) (s0 : state) : Prop :=
  forall e s,
    body s0 = (Exc e, s) ->
    exists r rec fin,
      guarded env worker_id body s0 =
        (r, with_trace (trace s ++ rec ++ fin) s)
      /\ visit_logs rec = map visit (Dict.values (work_request_map s))
      /\ (forall c, In c (attempted rec) -> is_recovery_call c = true)
      /\ attempted fin = cleanup_calls worker_id s.

(** ** A [None] from the queue *)

(** A worker that takes two requests at a time. *)
Definition two_at_a_time : WorkerConfig :=
  {| compat_hash := "llama"; max_parallel_requests := 2 |}.

(** The state of a connection of [two_at_a_time] after message [A] was
    dispatched: [A] is in flight and a second dequeue is pending. *)
Definition one_in_flight : state :=
  snd (connection env_ok "worker" two_at_a_time
         [completes [(first_dequeue, ResultTuple "work" "A")]] initial_state).

(** ** A failed transmission *)

(** Collaborators for which both the transmission of the work request and
    the following [reset_work] fail. *)
Definition env_send_and_reset_fail : environment :=
  fun tr c =>
    match c with
    | SendWorkRequest _ => Raise (ExternalError "connection closed")
    | ResetWork _ => Raise (ExternalError "database unavailable")
    | _ => env_ok tr c
    end.

(** Collaborators for which only the transmission fails. *)
Definition env_send_fails : environment :=
  fun tr c =>
    match c with
    | SendWorkRequest _ => Raise (ExternalError "connection closed")
    | _ => env_ok tr c
    end.

(** The rollback of a failed transmission, for the dispatch of
    [message_id] from [s]: if the transmission raised the [Exception]
    [e], then [reset_work] was called for the message, the message was
    re-enqueued, the dispatch raises [e], and the ledger is as it was. *)
Definition transmission_rollback (env : environment) (worker_id : string)
    (worker_config : WorkerConfig) (message_id : string) (s : state) : Prop :=
  let out := dispatch env worker_id worker_config message_id s in
  forall delta work_request e,
    trace (snd out) = trace s ++ delta ->
    In (Called (SendWorkRequest work_request) (Raise e)) delta ->
    is_Exception e = true ->
    In (ResetWork message_id) (attempted delta)
    /\ In (WorkQueueEnqueue message_id) (returned delta)
    /\ fst out = Exc e
    /\ work_request_map (snd out) = work_request_map s.

(** ** The handler of [generated_text] *)

(** Collaborators whose [complete_work] fails. *)
Definition env_complete_fails : environment :=
  fun tr c =>
    match c with
    | CompleteWork _ _ => Raise (ExternalError "database unavailable")
    | _ => env_ok tr c
    end.

(** The final text for the request of message [A]. *)
Definition generated_text_for_A : WorkerResponse :=
  {| response_type := "generated_text";
     request_id := Some "req-A";
     response_metrics := "cpu=1";
     text := "Hello";
     error := "";
     raw := "generated_text req-A Hello" |}.

(** The ledger entry of message [A]. *)
Definition container_of_A : WorkRequestContainer :=
  {| work_request := {| id := "req-A" |};
     message_id := "A";
     num_responses := 0 |}.

(** ** Message ids in the ledger *)

(** The message ids of the ledger's entries, in the ledger's order. *)
Definition in_flight (s : state) : list string :=
  map message_id (Dict.values (work_request_map s)).

(** No message id is in two entries. *)
Definition unique_message_ids (s : state) : Prop := NoDup (in_flight s).

(** The message ids a completion, a turn of the loop, a whole script take
    from the queue. *)
Definition dequeued_of (c : completion) : list string :=
  match c with
  | ResultTuple _ m => [m]
  | _ => []
  end.

Definition dequeued_in (c : cycle) : list string :=
  match waited c with
  | WaitDone done => flat_map (fun fc => dequeued_of (snd fc)) done
  | WaitRaised _ => []
  end.

Definition dequeued (script : list cycle) : list string :=
  flat_map dequeued_in script.

(** Occurrences of a message id in a list. *)
Definition occurrences (l : list string) (x : string) : nat :=
  count_occ string_dec l x.

(** [m] puts no message id in the ledger besides those of [new], each at
    most as often as it occurs there. *)
Definition ledger_grows_by {A} (m : M A) (new : list string) : Prop :=
  forall s x,
    occurrences (in_flight (snd (m s))) x
    <= occurrences (in_flight s) x + occurrences new x.

(** Collaborators that never fail and number the work requests: the id of
    a request is made from the length of the trace at the time it is
    built, so no two requests share an id. *)
Definition env_numbered_requests : environment :=
  fun tr c =>
    match c with
    | BuildWorkRequest _ =>
        Return ("req-" ++ NilEmpty.string_of_uint (Nat.to_uint (length tr)))%string
    | _ => env_ok tr c
    end.

(** The queue hands message [A] to the connection twice. *)
Definition same_message_twice : list cycle :=
  [completes [(first_dequeue, ResultTuple "work" "A")];
   completes [({| fid := 2; fkind := Dequeue |}, ResultTuple "work" "A")]].

(** Ledger uniqueness at the point a script leads to. *)
Definition ledger_uniqueness (env : environment) (worker_id : string)
    (worker_config : WorkerConfig) (script : list cycle) : Prop :=
  unique_message_ids
    (snd (handle_worker env worker_id worker_config script initial_state)).

(** ** The capacity gate *)

(** A keep-alive answer of the worker. *)
Definition pong : WorkerResponse :=
  {| response_type := "pong";
     request_id := None;
     response_metrics := "cpu=1";
     text := "";
     error := "";
     raw := "pong" |}.

(** The first wait times out and a ping is sent; the second wait finds
    both the receive (the worker's pong) and the dequeue (message [A])
    done, and the set [done] is iterated receive first. *)
Definition receive_and_dequeue_together : list cycle :=
  [completes [];
   completes [(first_receive, ResultResponse pong);
              (first_dequeue, ResultTuple "work" "A")]].

(** The same, and then the dequeue armed in the second turn gives
    message [B]. *)
Definition receive_and_dequeue_then_dequeue : list cycle :=
  receive_and_dequeue_together
  ++ [completes [({| fid := 2; fkind := Dequeue |}, ResultTuple "work" "B")]].

(** The capacity invariant in a state: a dequeue is pending only if the
    ledger holds fewer than [max_parallel_requests] entries. *)
Definition capacity_invariant (worker_config : WorkerConfig) (s : state)
  : Prop :=
  existsb is_dequeue (pending_futures s) = true ->
  (Z.of_nat (Dict.len (work_request_map s))
   < max_parallel_requests worker_config)%Z.

(** ** The name [e] in the recovery pass *)

(** Two entries at termination: [A] has seen no response, [B] has seen
    two. *)
Definition two_entries : state :=
  with_map
    [("req-A", {| work_request := {| id := "req-A" |};
                  message_id := "A"; num_responses := 0 |});
     ("req-B", {| work_request := {| id := "req-B" |};
                  message_id := "B"; num_responses := 2 |})]
    initial_state.

(** A partial response for the request of message [B]. *)
Definition token_for_B : WorkerResponse :=
  {| response_type := "token";
     request_id := Some "req-B";
     response_metrics := "";
     text := "Hi";
     error := "";
     raw := "token req-B Hi" |}.

(** Messages [A] and [B] are dispatched, a partial response arrives for
    [B], then the worker is found disconnected. *)
Definition two_dispatched_then_disconnect : list cycle :=
  [completes [(first_dequeue, ResultTuple "work" "A")];
   completes [({| fid := 2; fkind := Dequeue |}, ResultTuple "work" "B")];
   completes [(first_receive, ResultResponse token_for_B)];
   disconnected].

(** * Further properties of the handlers *)

(** ** Entries of the ledger *)

(** [container] after one more partial response. *)
Definition counted (container : WorkRequestContainer) : WorkRequestContainer :=
  {| work_request := work_request container;
     message_id := message_id container;
     num_responses := S (num_responses container) |}.

(** The entry made for a request that has just been sent. *)
Definition fresh_entry (work_request : WorkRequest) (message_id : string)
  : WorkRequestContainer :=
  {| work_request := work_request;
     message_id := message_id;
     num_responses := 0 |}.

(** The request a response refers to is not in the ledger of [s]. *)
Definition unknown_request (response : WorkerResponse) (s : state) : Prop :=
  request_id response = None
  \/ exists rid,
       request_id response = Some rid
       /\ ~ In rid (Dict.keys (work_request_map s)).

(** The session record written by [_update_session] in state [s]. *)
Definition session_report (metrics : string) (s : state) : WorkerSession :=
  {| requests_in_flight := Dict.len (work_request_map s);
     metrics := Some metrics |}.

(** ** Concrete responses *)

(** A partial response for the request of message [A]. *)
Definition token_for_A : WorkerResponse :=
  {| response_type := "token";
     request_id := Some "req-A";
     response_metrics := "";
     text := "Hel";
     error := "";
     raw := "token req-A Hel" |}.

(** A request-scoped failure for the request of message [A]. *)
Definition error_for_A : WorkerResponse :=
  {| response_type := "error";
     request_id := Some "req-A";
     response_metrics := "cpu=1";
     text := "";
     error := "out of memory";
     raw := "error req-A" |}.

(** A connection-scoped failure that names a request the ledger does not
    hold. *)
Definition general_error_naming_Z : WorkerResponse :=
  {| response_type := "general_error";
     request_id := Some "req-Z";
     response_metrics := "cpu=9";
     text := "";
     error := "worker restarting";
     raw := "general_error" |}.

(** A partial response for a request the ledger does not hold. *)
Definition token_for_Z : WorkerResponse :=
  {| response_type := "token";
     request_id := Some "req-Z";
     response_metrics := "";
     text := "x";
     error := "";
     raw := "token req-Z x" |}.

(** ** Exceptions that leave the handler *)

(** [abort_work] calls. *)
Definition is_abort (c : call) : bool :=
  match c with
  | AbortWork _ _ => true
  | _ => false
  end.

(** The only exceptions [m] lets out are those that are not
    [Exception]s. *)
Definition contains_Exceptions {A} (m : M A) : Prop :=
  forall s e, fst (m s) = Exc e -> is_Exception e = false.

(** Collaborators for which the transmission of the work request is
    cancelled. *)
Definition env_send_cancelled : environment :=
  fun tr c =>
    match c with
    | SendWorkRequest _ => Raise CancelledError
    | _ => env_ok tr c
    end.

(** ** One completion per wait *)

(** The dequeues and the receives among the pending futures. *)
Definition pending_dequeues (s : state) : nat :=
  length (filter is_dequeue (pending_futures s)).

Definition pending_receives (s : state) : nat :=
  length (filter (fun f => negb (is_dequeue f)) (pending_futures s)).

(** At most one dequeue and one receive are pending, a dequeue is pending
    only under capacity, and the ledger holds at most
    [max_parallel_requests] entries. *)
Definition within_capacity (worker_config : WorkerConfig) (s : state)
  : Prop :=
  pending_dequeues s <= 1
  /\ pending_receives s <= 1
  /\ (pending_dequeues s = 1 ->
      (Z.of_nat (Dict.len (work_request_map s))
       < max_parallel_requests worker_config)%Z)
  /\ (Z.of_nat (Dict.len (work_request_map s))
      <= Z.max 0 (max_parallel_requests worker_config))%Z.

(** A turn of the loop in which the wait is cancelled, times out, or
    returns a single future that was pending in [s], a dequeue for a
    dequeued message and a receive for a worker response. *)
Definition one_completion (s : state) (c : cycle) : Prop :=
  match waited c with
  | WaitRaised _ => True
  | WaitDone [] => True
  | WaitDone [(f, x)] =>
      In f (pending_futures s)
      /\ match x with
         | ResultTuple _ _ => is_dequeue f = true
         | ResultResponse _ => is_dequeue f = false
         | _ => True
         end
  | WaitDone (_ :: _ :: _) => False
  end.

(** Every turn of the script is such a turn, in the state the turns
    before it lead to. *)
Fixpoint one_completion_per_wait (env : environment) (worker_id : string)
    (worker_config : WorkerConfig) (script : list cycle) (s : state) : Prop :=
  match script with
  | [] => True
  | c :: rest =>
      one_completion s c
      /\ one_completion_per_wait env worker_id worker_config rest
           (snd (main_loop env worker_id worker_config [c] s))
  end.

(** [s] with one more pending future of kind [k]. *)
Definition armed (k : future_kind) (s : state) : state :=
  with_next_future (S (next_future s))
    (with_pending
       (pending_futures s ++ [{| fid := next_future s; fkind := k |}]) s).

(** [m] adds no entry to the ledger. *)
Definition never_longer {A} (m : M A) : Prop :=
  forall s,
    Dict.len (work_request_map (snd (m s))) <= Dict.len (work_request_map s).

(** Message [A] is dispatched, three partial responses and then the final
    text arrive for it, one completion per wait. *)
Definition a_whole_request : list cycle :=
  [completes [(first_dequeue, ResultTuple "work" "A")];
   completes [(first_receive, ResultResponse token_for_A)];
   completes [({| fid := 2; fkind := Receive |}, ResultResponse token_for_A)];
   completes [({| fid := 3; fkind := Receive |}, ResultResponse token_for_A)];
   completes [({| fid := 4; fkind := Receive |},
               ResultResponse generated_text_for_A)]].

(** ** The life of one request *)

(** The collaborators never raise. *)
Definition never_raises (env : environment) : Prop :=
  forall tr c, exists v, env tr c = Return v.

(** Completed receives that gave these responses. *)
Definition received (l : list (future * WorkerResponse))
  : list (future * completion) :=
  map (fun fr => (fst fr, ResultResponse (snd fr))) l.

(** The forwarding of a partial response of message [message_id]. *)
Definition forwarded (message_id : string) (fr : future * WorkerResponse)
  : call :=
  MessageQueueEnqueue message_id (TokenPacket (raw (snd fr))).

(** ** What the recovery pass may call *)

(** A call of the recovery pass that ended with trace [delta] is
    justified by the entries it went over: a reset by an entry of the
    message without responses; a re-enqueue by such an entry and by the
    reset of the message having returned; an abort by an entry of the
    message with responses, the reason being the text of the terminating
    error. *)
Definition justified (e : exn) (containers : list WorkRequestContainer)
    (delta : list event) (c : call) : Prop :=
  match c with
  | ResetWork m =>
      exists x, In x containers /\ message_id x = m /\ num_responses x = 0
  | WorkQueueEnqueue m =>
      (exists x, In x containers /\ message_id x = m /\ num_responses x = 0)
      /\ In (ResetWork m) (returned delta)
  | AbortWork m reason =>
      (exists x, In x containers /\ message_id x = m /\ num_responses x <> 0)
      /\ reason = str e
  | _ => False
  end.

(** ** A connection that fails to start *)

(** Collaborators whose database refuses the connect event. *)
Definition env_connect_event_fails : environment :=
  fun tr c =>
    match c with
    | AddWorkerConnectEvent _ => Raise (ExternalError "database unavailable")
    | _ => env_ok tr c
    end.

(** ** Messages the queue delivers again *)

(** When the completion is a dequeued message whose id is in the ledger
    of [s], [start_work] raises for it. *)
Definition refused_if_in_flight (env : environment) (worker_id : string)
    (s : state) (c : completion) : Prop :=
  match c with
  | ResultTuple _ m =>
      In m (in_flight s) ->
      exists e, env (trace s) (StartWork m worker_id) = Raise e
  | _ => True
  end.

(** The same for the completions of one wait, each in the state in which
    the loop processes it, as long as the ones before it returned. *)
Fixpoint refused_in_done (env : environment) (worker_id : string)
    (worker_config : WorkerConfig) (done : list (future * completion))
    (s : state) : Prop :=
  match done with
  | [] => True
  | (_, c) :: rest =>
      refused_if_in_flight env worker_id s c
      /\ match process env worker_id worker_config c s with
         | (Val _, s') =>
             refused_in_done env worker_id worker_config rest s'
         | _ => True
         end
  end.

(** The same for the turns of a script, each in the state the turns
    before it lead to, as long as the loop goes on. *)
Fixpoint refuses_redelivery (env : environment) (worker_id : string)
    (worker_config : WorkerConfig) (script : list cycle) (s : state) : Prop :=
  match script with
  | [] => True
  | c :: rest =>
      (client_disconnected c = false ->
       forall done,
         waited c = WaitDone done ->
         refused_in_done env worker_id worker_config done
           (still_pending done s))
      /\ match main_loop env worker_id worker_config [c] s with
         | (Suspended, s') =>
             refuses_redelivery env worker_id worker_config rest s'
         | _ => True
         end
  end.

(** The same for a connection: for the loop that follows the start-up,
    when the start-up returns. *)
Definition redelivery_refused (env : environment) (worker_id : string)
    (worker_config : WorkerConfig) (script : list cycle) : Prop :=
  match startup env worker_id worker_config initial_state with
  | (Val _, s) => refuses_redelivery env worker_id worker_config script s
  | _ => True
  end.

(** The trace shows that [start_work] returned for message [m]. *)
Definition started (m : string) (tr : list event) : bool :=
  existsb (fun ev => match ev with
                     | Called (StartWork m' _) (Return _) => String.eqb m m'
                     | _ => false
                     end) tr.

(** Collaborators that number the work requests and whose [start_work]
    refuses a message for which it has returned before. *)
Definition env_refuses_started : environment :=
  fun tr c =>
    match c with
    | StartWork m _ =>
        if started m tr then Raise (ExternalError "message is not pending")
        else env_numbered_requests tr c
    | _ => env_numbered_requests tr c
    end.

(** * Lemmas and theorems *)

(** ** Facts about dictionaries *)

Lemma Dict_get_None_iff {V} (k : string) (d : Dict.t V) :
  Dict.get k d = None <-> ~ In k (Dict.keys d).
Proof.
  induction d as [|[k' v] rest IH]; simpl.
  - split; [intros _ []| reflexivity].
  - destruct (String.eqb_spec k k') as [->|Hne].
    + split; [discriminate | intros H; exfalso; apply H; now left].
    + rewrite IH. split.
      * intros H [Heq|Hin]; [congruence | exact (H Hin)].
      * intros H Hin. apply H. now right.
Qed.

Lemma Dict_get_Some_In {V} (k : string) (d : Dict.t V) (v : V) :
  Dict.get k d = Some v -> In (k, v) d.
Proof.
  induction d as [|[k' v'] rest IH]; simpl; [discriminate|].
  destruct (String.eqb_spec k k') as [->|Hne].
  - intros [= ->]. now left.
  - intros H. right. now apply IH.
Qed.

(** ** The ledger lookup *)

(** C8.  The lookup raises [WorkRequestNotFound] exactly when the request
    id is [None] or is not a key of the ledger, and it raises nothing
    else; when the request id is a key, the lookup returns the entry
    stored under it.  In both cases the connection's state, and so the
    ledger, is what it was. *)
Theorem lookup_raises_iff_null_or_absent
    (s : state) (request_id : option string) :
  let absent :=
    request_id = None \/
    exists rid, request_id = Some rid /\
                ~ In rid (Dict.keys (work_request_map s)) in
  (lookup request_id s = (Exc (WorkRequestNotFound request_id), s) <-> absent)
  /\ ((exists e s', lookup request_id s = (Exc e, s')) <-> absent)
  /\ (forall rid,
        request_id = Some rid ->
        In rid (Dict.keys (work_request_map s)) ->
        exists container,
          lookup request_id s = (Val container, s)
          /\ Dict.get rid (work_request_map s) = Some container
          /\ In (rid, container) (work_request_map s))
  /\ snd (lookup request_id s) = s.
Proof.
  intros absent. unfold absent, lookup, get_work_request_container.
  destruct request_id as [rid|].
  - destruct (Dict.get rid (work_request_map s)) as [c|] eqn:Hget.
    + assert (Hin : In rid (Dict.keys (work_request_map s))).
      { destruct (in_dec string_dec rid (Dict.keys (work_request_map s)))
          as [H|H]; [exact H|].
        apply Dict_get_None_iff in H. congruence. }
      assert (Hno : ~ (Some rid = None \/
                       exists k, Some rid = Some k /\
                         ~ In k (Dict.keys (work_request_map s)))).
      { intros [[=]|(k & [= <-] & Hk)]. contradiction. }
      split; [|split; [|split]].
      * split; [discriminate | intros H; destruct (Hno H)].
      * split; [intros (e & s' & [=]) | intros H; destruct (Hno H)].
      * intros k [= <-] _. exists c. split; [reflexivity|].
        split; [exact Hget | now apply Dict_get_Some_In].
      * reflexivity.
    + apply Dict_get_None_iff in Hget.
      assert (Hyes : Some rid = None \/
                     exists k, Some rid = Some k /\
                       ~ In k (Dict.keys (work_request_map s))).
      { right. now exists rid. }
      split; [|split; [|split]].
      * split; [intros _; exact Hyes | reflexivity].
      * split; [intros _; exact Hyes|].
        intros _. now exists (WorkRequestNotFound (Some rid)), s.
      * intros k [= <-] Hin. contradiction.
      * reflexivity.
  - split; [|split; [|split]].
    + split; [intros _; now left | reflexivity].
    + split; [intros _; now left|].
      intros _. now exists (WorkRequestNotFound None), s.
    + intros k [=].
    + reflexivity.
Qed.

Lemma Dict_del_present {V} (k : string) (d : Dict.t V) (v : V) :
  Dict.get k d = Some v -> exists d', Dict.del k d = Some d'.
Proof.
  induction d as [|[k' v'] rest IH]; simpl; [discriminate|].
  destruct (String.eqb k k').
  - intros _. now exists rest.
  - intros H. destruct (IH H) as [d' ->]. now eexists.
Qed.

(** ** Code that leaves the set of pending futures alone *)

Lemma keeps_futures_ret {A} (a : A) : keeps_futures (ret a).
Proof. intros s. cbn. repeat split; discriminate. Qed.

Lemma keeps_futures_raise {A} (e : exn) : keeps_futures (@raise A e).
Proof. intros s. cbn. repeat split; discriminate. Qed.

Lemma keeps_futures_bind {A B} (m : M A) (k : A -> M B) :
  keeps_futures m -> (forall a, keeps_futures (k a)) ->
  keeps_futures (bind m k).
Proof.
  intros Hm Hk s. unfold bind.
  destruct (Hm s) as (Hp & Hn & Hs).
  destruct (m s) as [[a|e|] s1]; cbn in *.
  - destruct (Hk a s1) as (Hp' & Hn' & Hs').
    repeat split; congruence.
  - repeat split; [assumption | assumption | discriminate].
  - congruence.
Qed.

Lemma keeps_futures_try_except {A} (m : M A) (h : exn -> M A) :
  keeps_futures m -> (forall e, keeps_futures (h e)) ->
  keeps_futures (try_except m h).
Proof.
  intros Hm Hh s. unfold try_except.
  destruct (Hm s) as (Hp & Hn & Hs).
  destruct (m s) as [[a|e|] s1]; cbn in *.
  - repeat split; [assumption | assumption | discriminate].
  - destruct (is_Exception e).
    + destruct (Hh e s1) as (Hp' & Hn' & Hs').
      repeat split; congruence.
    + repeat split; [assumption | assumption | discriminate].
  - congruence.
Qed.

Lemma keeps_futures_ext (env : environment) (c : call) :
  keeps_futures (ext env c).
Proof.
  intros s. unfold ext.
  destruct (env (trace s) c); cbn; repeat split; discriminate.
Qed.

Lemma keeps_futures_log (l : logmsg) : keeps_futures (log l).
Proof. intros s. cbn. repeat split; discriminate. Qed.

Lemma keeps_futures_get_state : keeps_futures get_state.
Proof. intros s. cbn. repeat split; discriminate. Qed.

Lemma keeps_futures_lookup (request_id : option string) :
  keeps_futures (lookup request_id).
Proof.
  intros s. unfold lookup.
  destruct (get_work_request_container _ _); cbn; repeat split; discriminate.
Qed.

Lemma keeps_futures_del_entry (request_id : option string) :
  keeps_futures (del_entry request_id).
Proof.
  intros s. unfold del_entry.
  destruct request_id as [rid|]; [|cbn; repeat split; discriminate].
  destruct (Dict.del rid (work_request_map s));
    cbn; repeat split; discriminate.
Qed.

Lemma keeps_futures_with_map (f : state -> WorkRequestContainerMap) :
  keeps_futures (modify (fun s => with_map (f s) s)).
Proof. intros s. cbn. repeat split; discriminate. Qed.

Lemma keeps_futures_with_session (w : WorkerSession) :
  keeps_futures (modify (with_session w)).
Proof. intros s. cbn. repeat split; discriminate. Qed.

Lemma keeps_futures_increment (request_id : option string)
    (container : WorkRequestContainer) :
  keeps_futures (increment_num_responses request_id container).
Proof.
  unfold increment_num_responses. destruct request_id.
  - apply keeps_futures_with_map.
  - apply keeps_futures_ret.
Qed.

Create HintDb futures discriminated.

#[export] Hint Resolve keeps_futures_ret keeps_futures_raise
  keeps_futures_ext keeps_futures_log keeps_futures_get_state
  keeps_futures_lookup keeps_futures_del_entry keeps_futures_with_map
  keeps_futures_with_session keeps_futures_increment : futures.

Ltac keeps_futures :=
  repeat first
    [ apply keeps_futures_bind; [|intro]
    | apply keeps_futures_try_except; [|intro]
    | solve [auto with futures] ].

Lemma keeps_futures_update_session (env : environment) (worker_id : string)
    (metrics : string) :
  keeps_futures (_update_session env worker_id metrics).
Proof. unfold _update_session. keeps_futures. Qed.

Lemma keeps_futures_initiate (env : environment) (worker_id : string)
    (message_id : string) :
  keeps_futures (initiate_work_for_message env worker_id message_id).
Proof. unfold initiate_work_for_message. keeps_futures. Qed.

Lemma keeps_futures_route (env : environment) (worker_id : string)
    (response : WorkerResponse) :
  keeps_futures (route env worker_id response).
Proof.
  unfold route, handle_token_response, handle_generated_text_response,
    handle_error_response, handle_general_error_response.
  repeat match goal with
         | |- keeps_futures (if ?b then _ else _) => destruct b
         end;
    keeps_futures; apply keeps_futures_update_session.
Qed.

(** ** Re-arming after a received response *)

(** C6.  After a worker response has been routed, whether its handler
    returned or raised, the pending set is the one the branch started
    with, then a new dequeue if and only if that set was empty and the
    ledger (as the handler left it) is below [max_parallel_requests],
    then, always, a new receive.  The outcome of the handler is passed
    on unchanged. *)
Theorem receive_rearms_after_routing
    (env : environment) (worker_id : string) (worker_config : WorkerConfig)
    (response : WorkerResponse) (s : state) :
  let routed := route env worker_id response s in
  let out := receive env worker_id worker_config response s in
  let empty := Nat.eqb (length (pending_futures s)) 0 in
  let capacity :=
    (Z.of_nat (Dict.len (work_request_map (snd routed)))
       <? max_parallel_requests worker_config)%Z in
  let n := next_future s in
  fst out = fst routed
  /\ work_request_map (snd out) = work_request_map (snd routed)
  /\ trace (snd out) = trace (snd routed)
  /\ pending_futures (snd out) =
       pending_futures s
       ++ (if empty && capacity then [{| fid := n; fkind := Dequeue |}]
           else [])
       ++ [{| fid := if empty && capacity then S n else n;
              fkind := Receive |}].
Proof.
  cbv zeta.
  destruct (keeps_futures_route env worker_id response s) as (Hp & Hn & Hs).
  unfold receive, try_finally.
  destruct (route env worker_id response s) as [r s1]. cbn [fst snd] in *.
  assert (Hlen : length (pending_futures s) = 0 -> pending_futures s = []).
  { destruct (pending_futures s); [reflexivity | discriminate]. }
  destruct r as [u|e|]; [| |congruence];
    unfold bind, get_state, _add_dequeue, _add_receive, add_future, modify;
    rewrite Hp;
    (destruct (Nat.eqb (length (pending_futures s)) 0) eqn:Hempty;
     [ apply Nat.eqb_eq in Hempty; rewrite (Hlen Hempty); cbn [andb];
       unfold bind, get_state, modify;
       destruct (Z.of_nat _ <? _)%Z; cbn; rewrite ?Hp, ?Hn, ?(Hlen Hempty);
       repeat split
     | cbn; rewrite ?Hp, ?Hn; repeat split ]).
Qed.

(** ** Routing by response kind *)

Lemma kind_of_injective (p q : handling_path) :
  kind_of p = kind_of q -> p = q.
Proof. destruct p, q; cbn; intros H; try reflexivity; discriminate H. Qed.

Lemma route_known (env : environment) (worker_id : string)
    (p : handling_path) (worker_response : WorkerResponse) :
  response_type worker_response = kind_of p ->
  route env worker_id worker_response = run_path env worker_id p worker_response.
Proof.
  intros H. unfold route. rewrite H. destruct p; reflexivity.
Qed.

Lemma route_unknown (env : environment) (worker_id : string)
    (worker_response : WorkerResponse) :
  (forall p, response_type worker_response <> kind_of p) ->
  route env worker_id worker_response =
  raise (unknown_response_type worker_response).
Proof.
  intros H. unfold route, unknown_response_type.
  repeat match goal with
         | |- context [String.eqb ?a ?b] =>
             destruct (String.eqb_spec a b) as [Heq|_];
             [ exfalso;
               first [ exact (H PongPath Heq) | exact (H TokenPath Heq)
                     | exact (H GeneratedTextPath Heq) | exact (H ErrorPath Heq)
                     | exact (H GeneralErrorPath Heq) ] | ]
         end.
  reflexivity.
Qed.

Lemma for_done_app (env : environment) (worker_id : string)
    (worker_config : WorkerConfig) (pre post : list (future * completion))
    (s : state) :
  for_done env worker_id worker_config (pre ++ post) s =
  (for_done env worker_id worker_config pre ;;
   for_done env worker_id worker_config post) s.
Proof.
  revert s. induction pre as [|[f c] pre IH]; intros s; cbn.
  - reflexivity.
  - unfold bind in *.
    destruct (process env worker_id worker_config c s) as [[u|e|] s1];
      [apply IH | reflexivity | reflexivity].
Qed.

Lemma main_loop_turn (env : environment) (worker_id : string)
    (worker_config : WorkerConfig) (c : cycle) (script : list cycle)
    (done : list (future * completion)) (s : state) :
  client_disconnected c = false ->
  waited c = WaitDone done ->
  main_loop env worker_id worker_config (c :: script) s =
  (for_done env worker_id worker_config done ;;
   (match done with
    | [] => ext env SendPing ;; ret tt
    | _ :: _ => ret tt
    end) ;;
   main_loop env worker_id worker_config script) (still_pending done s).
Proof.
  intros Hconn Hwait. cbn [main_loop]. rewrite Hconn, Hwait.
  reflexivity.
Qed.

(** What the [try] / [finally] of the receive branch passes on from the
    router. *)
Lemma receive_passes_on (env : environment) (worker_id : string)
    (worker_config : WorkerConfig) (response : WorkerResponse) (s : state) :
  let routed := route env worker_id response s in
  let out := receive env worker_id worker_config response s in
  fst out = fst routed
  /\ work_request_map (snd out) = work_request_map (snd routed)
  /\ trace (snd out) = trace (snd routed).
Proof.
  cbv zeta.
  destruct (keeps_futures_route env worker_id response s) as (_ & _ & Hs).
  unfold receive, try_finally.
  destruct (route env worker_id response s) as [r s1]. cbn [fst snd] in *.
  destruct r as [u|e|]; [| |congruence];
    unfold bind, get_state, _add_dequeue, _add_receive, add_future, modify, ret;
    destruct (Nat.eqb _ 0);
    unfold bind, get_state, modify, ret;
    try destruct (Z.of_nat _ <? _)%Z; cbn; repeat split.
Qed.

(** The loop ends with the exception raised while a completion is
    processed. *)
Lemma main_loop_ends_when_process_raises
    (env : environment) (worker_id : string) (worker_config : WorkerConfig)
    (c : cycle) (script : list cycle)
    (pre post : list (future * completion)) (f : future) (x : completion)
    (s s1 s2 : state) (e : exn) :
  client_disconnected c = false ->
  waited c = WaitDone (pre ++ (f, x) :: post) ->
  for_done env worker_id worker_config pre
    (still_pending (pre ++ (f, x) :: post) s) = (Val tt, s1) ->
  process env worker_id worker_config x s1 = (Exc e, s2) ->
  main_loop env worker_id worker_config (c :: script) s = (Exc e, s2).
Proof.
  intros Hconn Hwait Hpre Hx.
  erewrite main_loop_turn by eassumption.
  unfold bind at 1. rewrite for_done_app.
  unfold bind at 1. rewrite Hpre.
  cbn [for_done]. unfold bind at 1. now rewrite Hx.
Qed.

Lemma Dict_get_In_values {V} (k : string) (d : Dict.t V) (v : V) :
  Dict.get k d = Some v -> In v (Dict.values d).
Proof.
  intros H. apply Dict_get_Some_In in H.
  unfold Dict.values. change v with (snd (k, v)). now apply in_map.
Qed.

Lemma visit_logs_of_visits (l : list WorkRequestContainer)
    (container : WorkRequestContainer) :
  In container l -> In (visit container) (map visit l).
Proof. apply in_map. Qed.

(** C4.  A response whose kind is one of [pong], [token],
    [generated_text], [error], [general_error] is handled by the body of
    that kind's case, and no other path has that kind.  A response of any
    other kind makes the router raise [RuntimeError] without touching the
    state; and once the loop comes to process such a response (the
    futures iterated before it in the same wait having been processed
    without an exception), the loop ends with that error. *)
Theorem route_by_response_kind
    (env : environment) (worker_id : string) (worker_config : WorkerConfig)
    (worker_response : WorkerResponse) :
  (forall p,
      response_type worker_response = kind_of p ->
      route env worker_id worker_response =
        run_path env worker_id p worker_response
      /\ forall q, response_type worker_response = kind_of q -> q = p)
  /\
  ((forall p, response_type worker_response <> kind_of p) ->
   (forall s,
       route env worker_id worker_response s =
         (Exc (unknown_response_type worker_response), s))
   /\
   (forall c script pre f post s s1,
       client_disconnected c = false ->
       waited c = WaitDone (pre ++ (f, ResultResponse worker_response) :: post) ->
       for_done env worker_id worker_config pre
         (still_pending (pre ++ (f, ResultResponse worker_response) :: post) s)
         = (Val tt, s1) ->
       exists s2,
         main_loop env worker_id worker_config (c :: script) s =
           (Exc (unknown_response_type worker_response), s2)
         /\ trace s2 = trace s1
         /\ work_request_map s2 = work_request_map s1)).
Proof.
  split.
  - intros p Hp. split.
    + now apply route_known.
    + intros q Hq. apply kind_of_injective. congruence.
  - intros Hunknown.
    pose proof (route_unknown env worker_id worker_response Hunknown) as Hroute.
    split.
    + intros s. now rewrite Hroute.
    + intros c script pre f post s s1 Hconn Hwait Hpre.
      pose proof (receive_passes_on env worker_id worker_config
                    worker_response s1) as Hrec.
      cbv zeta in Hrec. rewrite Hroute in Hrec. cbn [raise fst snd] in Hrec.
      destruct Hrec as (Hres & Hmap & Htrace).
      destruct (receive env worker_id worker_config worker_response s1)
        as [r s2] eqn:Hreceive.
      cbn [fst snd] in *. subst r.
      exists s2. split; [|auto].
      eapply main_loop_ends_when_process_raises; eassumption.
Qed.

Lemma route_by_response_kind_witness :
  let ping := {| response_type := "ping"; request_id := None;
                 response_metrics := ""; text := ""; error := "";
                 raw := "ping" |} in
  route env_ok "worker" pong initial_state
    = _update_session env_ok "worker" "cpu=1" initial_state
  /\ route env_ok "worker" ping initial_state
     = (Exc (RuntimeError "Unknown response type: ping"), initial_state).
Proof.
  cbv zeta.
  destruct (@route_by_response_kind env_ok "worker" one_at_a_time pong)
    as [Hknown _].
  destruct (@route_by_response_kind env_ok "worker" one_at_a_time
              {| response_type := "ping"; request_id := None;
                 response_metrics := ""; text := ""; error := "";
                 raw := "ping" |})
    as [_ Hunknown].
  split.
  - destruct (Hknown PongPath eq_refl) as [Heq _]. now rewrite Heq.
  - apply Hunknown. intros p. destruct p; discriminate.
Defined.

(** ** Reading a trace *)

Lemma with_trace_same (s : state) : with_trace (trace s) s = s.
Proof. now destruct s. Qed.

Lemma with_trace_twice (t t' : list event) (s : state) :
  with_trace t (with_trace t' s) = with_trace t s.
Proof. reflexivity. Qed.

Lemma emits_bind {A B} (m : M A) (k : A -> M B) (s : state) (a : A)
    (d1 d2 : list event) (r : result B) :
  emits m s (Val a) d1 ->
  emits (k a) (with_trace (trace s ++ d1) s) r d2 ->
  emits (bind m k) s r (d1 ++ d2).
Proof.
  unfold emits, bind. intros -> ->. cbn [trace with_trace].
  now rewrite app_assoc.
Qed.

Lemma emits_bind_stop {A B} (m : M A) (k : A -> M B) (s : state)
    (e : exn) (d : list event) :
  emits m s (Exc e) d -> emits (bind m k) s (Exc e) d.
Proof. unfold emits, bind. now intros ->. Qed.

Lemma attempted_app (t1 t2 : list event) :
  attempted (t1 ++ t2) = attempted t1 ++ attempted t2.
Proof. apply flat_map_app. Qed.

Lemma returned_app (t1 t2 : list event) :
  returned (t1 ++ t2) = returned t1 ++ returned t2.
Proof. apply flat_map_app. Qed.

Lemma visit_logs_app (t1 t2 : list event) :
  visit_logs (t1 ++ t2) = visit_logs t1 ++ visit_logs t2.
Proof. apply flat_map_app. Qed.

(** ** The recovery pass *)

Ltac env_cases env :=
  repeat match goal with
         | |- context [env ?tr ?c] =>
             let H := fresh "Henv" in
             destruct (env tr c) eqn:H; cbn [trace with_trace]
         | |- context [is_Exception ?e] =>
             is_var e;
             let H := fresh "Hexc" in
             destruct (is_Exception e) eqn:H; cbn [trace with_trace]
         end.

Ltac emitted :=
  unfold with_trace; cbn; rewrite <- ?app_assoc; cbn; reflexivity.

Ltac against_env :=
  match goal with
  | Hok : recovery_calls_return ?env, Heq : ?env ?tr ?c = Raise _ |- _ =>
      let v := fresh in let Hv := fresh in
      destruct (Hok tr c eq_refl) as [v Hv]; congruence
  | Honly : raises_only_Exception ?env, Heq : ?env ?tr ?c = Raise ?e |- _ =>
      let H := fresh in
      pose proof (Honly _ _ _ Heq) as H; congruence
  end.

Section Recovery.

Variable env : environment.

(** One entry: the visit is logged, only recovery calls are made, and the
    ledger and the pending set stay as they are. *)
Lemma recover_emits (container : WorkRequestContainer) (e : option exn)
    (s : state) :
  exists r delta,
    emits (recover env container e) s r delta
    /\ visit_logs delta = [visit container]
    /\ r <> Suspended
    /\ (forall c, In c (attempted delta) -> is_recovery_call c = true)
    /\ (raises_only_Exception env -> exists e', r = Val e')
    /\ (recovery_calls_return env ->
        forall e0, e = Some e0 ->
          r = Val (Some e0)
          /\ returned delta = recovery_plan e0 container
          /\ attempted delta = recovery_plan e0 container).
Proof.
  unfold emits, recover, visit, recovery_plan, try_except, bind, log, modify,
    ext, ret, raise.
  destruct (Nat.eqb (num_responses container) 0); [|destruct e as [e0|]];
    cbn [trace with_trace is_Exception]; env_cases env;
    (eexists _, _; split; [emitted|]); cbn.
  all: (split; [reflexivity|]).
  all: (split; [discriminate|]).
  all: (split; [intros c Hc; repeat (destruct Hc as [<-|Hc]; [reflexivity|]); destruct Hc|]).
  all: (split; [intros Honly; first [against_env | eauto]|]).
  all: intros Hok e1 He1; first [against_env | discriminate He1 | idtac].
  all: first [subst e | injection He1 as <-]; repeat split.
Qed.

Lemma emits_nothing {A} (m : M A) (s : state) (r : result A) :
  m s = (r, s) -> emits m s r [].
Proof.
  unfold emits. intros ->. now rewrite app_nil_r, with_trace_same.
Qed.

(** The whole pass over the entries. *)
Lemma recover_all_emits (containers : list WorkRequestContainer)
    (e : option exn) (s : state) :
  exists r delta,
    emits (recover_all env containers e) s r delta
    /\ r <> Suspended
    /\ (forall c, In c (attempted delta) -> is_recovery_call c = true)
    /\ (raises_only_Exception env ->
        r = Val tt /\ visit_logs delta = map visit containers)
    /\ (recovery_calls_return env ->
        forall e0, e = Some e0 ->
          r = Val tt
          /\ returned delta = flat_map (recovery_plan e0) containers
          /\ attempted delta = flat_map (recovery_plan e0) containers).
Proof.
  revert e s. induction containers as [|container rest IH]; intros e s.
  - exists (Val tt), []. split; [now apply emits_nothing|].
    cbn. repeat split; try discriminate. intros c [].
  - destruct (recover_emits container e s)
      as (r1 & d1 & Hrun1 & Hvisit1 & Hsus1 & Hcalls1 & Honly1 & Hok1).
    destruct r1 as [e'|x|]; [| |congruence].
    + destruct (IH e' (with_trace (trace s ++ d1) s))
        as (r2 & d2 & Hrun2 & Hsus2 & Hcalls2 & Honly2 & Hok2).
      exists r2, (d1 ++ d2). split; [|split; [exact Hsus2|split; [|split]]].
      * cbn [recover_all]. eapply emits_bind; eassumption.
      * intros c. rewrite attempted_app, in_app_iff. intros [H|H]; auto.
      * intros Honly. destruct (Honly2 Honly) as [-> Hv].
        split; [reflexivity|]. rewrite visit_logs_app, Hvisit1, Hv.
        reflexivity.
      * intros Hok e0 He0.
        destruct (Hok1 Hok e0 He0) as ([= ->] & Hret1 & Hatt1).
        destruct (Hok2 Hok e0 eq_refl) as (-> & Hret2 & Hatt2).
        split; [reflexivity|].
        rewrite returned_app, attempted_app, Hret1, Hret2, Hatt1, Hatt2.
        split; reflexivity.
    + exists (Exc x), d1. split; [|split; [discriminate|split; [|split]]].
      * cbn [recover_all]. now apply emits_bind_stop.
      * exact Hcalls1.
      * intros Honly. destruct (Honly1 Honly) as [e' [=]].
      * intros Hok e0 He0. destruct (Hok1 Hok e0 He0) as ([=] & _).
Qed.

(** The [except Exception as e] clause. *)
Lemma recovery_handler_emits (e : exn) (s : state) :
  exists r delta,
    emits (recovery_handler env e) s r delta
    /\ r <> Suspended
    /\ (forall c, In c (attempted delta) -> is_recovery_call c = true)
    /\ (raises_only_Exception env ->
        r = Val tt
        /\ visit_logs delta = map visit (Dict.values (work_request_map s)))
    /\ (recovery_calls_return env ->
        r = Val tt
        /\ returned delta =
             flat_map (recovery_plan e) (Dict.values (work_request_map s))
        /\ attempted delta =
             flat_map (recovery_plan e) (Dict.values (work_request_map s))).
Proof.
  destruct (recover_all_emits (Dict.values (work_request_map s)) (Some e)
              (with_trace (trace s ++ [Logged (LogHandlerError (str e))]) s))
    as (r & d & Hrun & Hsus & Hcalls & Honly & Hok).
  exists r, (Logged (LogHandlerError (str e)) :: d).
  split; [|split; [exact Hsus|split; [|split]]].
  - unfold recovery_handler.
    change (Logged (LogHandlerError (str e)) :: d)
      with ([Logged (LogHandlerError (str e))] ++ d).
    eapply emits_bind with (a := tt); [reflexivity|].
    unfold emits, bind, get_state in *. cbn [work_request_map with_trace] in *.
    exact Hrun.
  - exact Hcalls.
  - exact Honly.
  - intros H. exact (Hok H e eq_refl).
Qed.

End Recovery.

(** ** The clean-up of the [finally] clause *)

Section Cleanup.

Variable env : environment.
Variable worker_id : string.

Lemma best_effort_emits (c : call) (l : logmsg) (s : state) :
  visit_logs [Logged l] = [] ->
  exists r delta,
    emits (best_effort env c l) s r delta
    /\ attempted delta = [c]
    /\ visit_logs delta = []
    /\ r <> Suspended
    /\ (raises_only_Exception env -> r = Val tt).
Proof.
  intros Hl.
  unfold emits, best_effort, try_except, bind, ext, log, modify, ret.
  cbn in Hl. rewrite app_nil_r in Hl.
  env_cases env; (eexists _, _; split; [emitted|]); cbn;
    rewrite ?app_nil_r, ?Hl;
    repeat split; try discriminate.
  intros Honly. against_env.
Qed.

Lemma cancel_all_emits (ftrs : list future) (s : state) :
  exists r delta,
    emits (cancel_all env ftrs) s r delta
    /\ (forall c, In c (attempted delta) -> is_recovery_call c = false)
    /\ visit_logs delta = []
    /\ r <> Suspended
    /\ (raises_only_Exception env ->
        r = Val tt /\ attempted delta = map Cancel ftrs).
Proof.
  revert s. induction ftrs as [|ftr rest IH]; intros s.
  - exists (Val tt), []. split; [now apply emits_nothing|].
    cbn. repeat split; try discriminate. intros c [].
  - destruct (best_effort_emits (Cancel ftr) LogCancelError s eq_refl)
      as (r1 & d1 & Hrun1 & Hatt1 & Hvis1 & Hsus1 & Honly1).
    destruct r1 as [[]|x|]; [| |congruence].
    + destruct (IH (with_trace (trace s ++ d1) s))
        as (r2 & d2 & Hrun2 & Hcalls2 & Hvis2 & Hsus2 & Honly2).
      exists r2, (d1 ++ d2). split; [|split; [|split; [|split]]].
      * cbn [cancel_all]. eapply emits_bind; eassumption.
      * intros c. rewrite attempted_app, Hatt1, in_app_iff.
        intros [[<-|[]]|H]; [reflexivity | auto].
      * now rewrite visit_logs_app, Hvis1, Hvis2.
      * exact Hsus2.
      * intros Honly. destruct (Honly2 Honly) as [-> Hatt2].
        split; [reflexivity|]. now rewrite attempted_app, Hatt1, Hatt2.
    + exists (Exc x), d1. split; [|split; [|split; [|split]]].
      * cbn [cancel_all]. now apply emits_bind_stop.
      * intros c. rewrite Hatt1. intros [<-|[]]. reflexivity.
      * exact Hvis1.
      * discriminate.
      * intros Honly. discriminate (Honly1 Honly).
Qed.

Lemma cleans_seq (m k : M unit) (c1 c2 : state -> list call) :
  cleans env m c1 -> cleans env k c2 ->
  (forall s t, c2 (with_trace t s) = c2 s) ->
  cleans env (m ;; k) (fun s => c1 s ++ c2 s).
Proof.
  intros Hm Hk Hc2 s.
  destruct (Hm s) as (r1 & d1 & Hrun1 & Hcalls1 & Hvis1 & Hsus1 & Honly1).
  destruct r1 as [[]|x|]; [| |congruence].
  - destruct (Hk (with_trace (trace s ++ d1) s))
      as (r2 & d2 & Hrun2 & Hcalls2 & Hvis2 & Hsus2 & Honly2).
    exists r2, (d1 ++ d2). split; [|split; [|split; [|split]]].
    + eapply emits_bind; eassumption.
    + intros c. rewrite attempted_app, in_app_iff. intros [H|H]; auto.
    + now rewrite visit_logs_app, Hvis1, Hvis2.
    + exact Hsus2.
    + intros Honly. destruct (Honly1 Honly) as [_ Hatt1].
      destruct (Honly2 Honly) as [-> Hatt2].
      split; [reflexivity|]. now rewrite attempted_app, Hatt1, Hatt2, Hc2.
  - exists (Exc x), d1. split; [|split; [|split; [|split]]].
    + now apply emits_bind_stop.
    + exact Hcalls1.
    + exact Hvis1.
    + discriminate.
    + intros Honly. destruct (Honly1 Honly) as [[=] _].
Qed.

Lemma cleans_best_effort (c : call) (l : logmsg) :
  visit_logs [Logged l] = [] -> is_recovery_call c = false ->
  cleans env (best_effort env c l) (fun _ => [c]).
Proof.
  intros Hl Hc s.
  destruct (best_effort_emits c l s Hl)
    as (r & d & Hrun & Hatt & Hvis & Hsus & Honly).
  exists r, d. split; [exact Hrun|]. split; [|split; [|split]].
  - intros c'. rewrite Hatt. intros [<-|[]]. exact Hc.
  - exact Hvis.
  - exact Hsus.
  - intros H. split; [exact (Honly H) | exact Hatt].
Qed.

Lemma cleans_cancel_pending :
  cleans env (s <- get_state ;; cancel_all env (pending_futures s))
    (fun s => map Cancel (pending_futures s)).
Proof.
  intros s. unfold bind, get_state.
  destruct (cancel_all_emits (pending_futures s) s)
    as (r & d & Hrun & Hcalls & Hvis & Hsus & Honly).
  exists r, d. repeat split; try assumption; now apply Honly.
Qed.

(** The [finally] clause: no recovery call, and, when nothing but
    [Exception]s are raised, all four steps, in order. *)
Lemma cleans_cleanup :
  cleans env (cleanup env worker_id) (cleanup_calls worker_id).
Proof.
  unfold cleanup, cleanup_calls.
  change (fun s => [RedisClose; DeleteWorkerSession worker_id]
                   ++ map Cancel (pending_futures s) ++ [WebsocketClose])
    with (fun s : state =>
            (fun _ : state => [RedisClose]) s
            ++ (fun s => (fun _ : state => [DeleteWorkerSession worker_id]) s
                  ++ (fun s => (fun s => map Cancel (pending_futures s)) s
                               ++ (fun _ : state => [WebsocketClose]) s) s) s).
  apply cleans_seq; [now apply cleans_best_effort| |reflexivity].
  apply cleans_seq; [now apply cleans_best_effort| |reflexivity].
  assert (Hassoc :
    (s <- get_state ;; cancel_all env (pending_futures s) ;;
       best_effort env WebsocketClose LogWebsocketCloseError)
    = ((s <- get_state ;; cancel_all env (pending_futures s)) ;;
       best_effort env WebsocketClose LogWebsocketCloseError)).
  { reflexivity. }
  rewrite Hassoc.
  apply cleans_seq;
    [apply cleans_cancel_pending | now apply cleans_best_effort | reflexivity].
Qed.

End Cleanup.

(** ** Termination of the loop *)

(** What [handle_worker] does once its body has raised [e] in state [s]:
    the trace grows by a recovery part [rec] and then a clean-up part
    [fin]; nothing else of the state changes. *)
Lemma guarded_after_exception (env : environment) (worker_id : string)
    (body : M unit) (s0 s : state) (e : exn) :
  body s0 = (Exc e, s) ->
  exists r rec fin,
    guarded env worker_id body s0 = (r, with_trace (trace s ++ rec ++ fin) s)
    /\ (forall c, In c (attempted rec) -> is_recovery_call c = true)
    /\ (forall c, In c (attempted fin) -> is_recovery_call c = false)
    /\ visit_logs fin = []
    /\ (is_Exception e = false -> rec = [])
    /\ (raises_only_Exception env ->
        r = (if is_Exception e then Val tt else Exc e)
        /\ attempted fin = cleanup_calls worker_id s
        /\ visit_logs rec =
             if is_Exception e
             then map visit (Dict.values (work_request_map s))
             else [])
    /\ (recovery_calls_return env -> is_Exception e = true ->
        returned rec =
          flat_map (recovery_plan e) (Dict.values (work_request_map s))
        /\ attempted rec =
          flat_map (recovery_plan e) (Dict.values (work_request_map s))).
Proof.
  intros Hbody. unfold guarded, try_finally, try_except. rewrite Hbody.
  destruct (is_Exception e) eqn:He.
  - destruct (recovery_handler_emits env e s)
      as (r1 & d1 & Hrun1 & Hsus1 & Hcalls1 & Honly1 & Hok1).
    destruct (cleans_cleanup env worker_id (with_trace (trace s ++ d1) s))
      as (r2 & d2 & Hrun2 & Hcalls2 & Hvis2 & Hsus2 & Honly2).
    unfold emits in Hrun1, Hrun2. rewrite Hrun1.
    cbn [trace with_trace] in Hrun2. rewrite with_trace_twice in Hrun2.
    assert (Hfinal :
      exists r,
        match r1 with
        | Suspended => (Suspended, with_trace (trace s ++ d1) s)
        | _ =>
            match cleanup env worker_id (with_trace (trace s ++ d1) s) with
            | (Val _, s'') => (r1, s'')
            | (Exc e', s'') => (Exc e', s'')
            | (Suspended, s'') => (Suspended, s'')
            end
        end = (r, with_trace (trace s ++ d1 ++ d2) s)
        /\ (r2 = Val tt -> r = r1)).
    { rewrite Hrun2, <- app_assoc.
      destruct r1 as [u|x|]; [| |congruence];
        (destruct r2 as [[]|y|]; [| |congruence]); eexists; split;
        try reflexivity; try discriminate. }
    destruct Hfinal as (r & Hfinal & Hr).
    destruct r1 as [u|x|]; [| |congruence];
      (exists r, d1, d2; split; [exact Hfinal|]);
      (split; [exact Hcalls1|]); (split; [exact Hcalls2|]);
      (split; [exact Hvis2|]); (split; [discriminate|]).
    all: split;
      [ intros Honly; destruct (Honly1 Honly) as [Hr1 Hv1];
        destruct (Honly2 Honly) as [Hr2 Hatt2];
        rewrite (Hr Hr2); auto
      | intros Hok _; destruct (Hok1 Hok) as (_ & Hret & Hatt); auto ].
  - destruct (cleans_cleanup env worker_id s)
      as (r2 & d2 & Hrun2 & Hcalls2 & Hvis2 & Hsus2 & Honly2).
    unfold emits in Hrun2. rewrite Hrun2.
    exists (match r2 with Val _ => Exc e | other => other end), [], d2.
    split; [destruct r2 as [[]|y|]; [reflexivity | reflexivity | congruence]|].
    split; [intros c []|]. split; [exact Hcalls2|]. split; [exact Hvis2|].
    split; [reflexivity|]. split.
    + intros Honly. destruct (Honly2 Honly) as [-> Hatt2]. auto.
    + discriminate.
Qed.

(** ** The recovery partition *)

Lemma visit_logs_of_split (tr rec fin t : list event) :
  t = tr ++ rec ++ fin ->
  visit_logs (skipn (length tr) t) = visit_logs rec ++ visit_logs fin.
Proof.
  intros ->. rewrite skipn_app, skipn_all, Nat.sub_diag. cbn [skipn app].
  apply visit_logs_app.
Qed.

(** As long as the calls of the recovery pass ([reset_work], the
    re-enqueue, [abort_work]) return: whenever the body ends with an
    [Exception] the recovery pass makes, for each entry of the ledger in
    turn, exactly the calls decided by whether its [num_responses] is 0,
    and what follows makes no recovery call. *)
Lemma recovery_partition_when_calls_return
    (env : environment) (worker_id : string) (body : M unit) (s0 : state) :
  recovery_calls_return env ->
  recovery_partition env worker_id body s0.
Proof.
  intros Hok e s Hbody He.
  destruct (guarded_after_exception env worker_id body s0 Hbody)
    as (r & rec & fin & Hrun & _ & Hfin & _ & _ & _ & Hplan).
  destruct (Hplan Hok He) as [Hret Hatt].
  exists r, rec, fin. auto.
Qed.

(** ** The five steps of termination *)

(** C3, as stated, fails: when the handler is cancelled while message
    [A] is in flight, the clean-up runs but the recovery pass does not;
    [A] is neither reset nor aborted. *)
Lemma termination_steps_fail_on_cancellation :
  ~ termination_steps env_ok "worker"
      (connection env_ok "worker" one_at_a_time dispatch_then_cancel)
      initial_state.
Proof.
  intros H.
  pose (out := connection env_ok "worker" one_at_a_time
                 dispatch_then_cancel initial_state).
  destruct (H CancelledError (snd out)) as (r & rec & fin & Hrun & Hvis & _).
  - vm_compute. reflexivity.
  - apply (f_equal (fun p => trace (snd p))) in Hrun.
    cbn [snd trace with_trace] in Hrun.
    apply visit_logs_of_split in Hrun. rewrite Hvis in Hrun.
    vm_compute in Hrun. discriminate Hrun.
Qed.

(** C3, amended.  Provided the collaborators raise nothing but
    [Exception]s: when the loop ends with an [Exception], the recovery
    pass visits every entry of the ledger, in order, and makes only
    recovery calls; when it ends with an exception that is not an
    [Exception] (a cancellation), there is no recovery part.  In both
    cases the clean-up then closes the queue connection, deletes the
    session, cancels every pending future and closes the websocket, in
    this order, each call being made whether or not the ones before it
    raised. *)
Theorem termination_steps_in_order
    (env : environment) (worker_id : string) (body : M unit)
    (s0 s : state) (e : exn) :
  raises_only_Exception env ->
  body s0 = (Exc e, s) ->
  exists r rec fin,
    guarded env worker_id body s0 = (r, with_trace (trace s ++ rec ++ fin) s)
    /\ r = (if is_Exception e then Val tt else Exc e)
    /\ visit_logs rec =
         (if is_Exception e
          then map visit (Dict.values (work_request_map s))
          else [])
    /\ (is_Exception e = false -> rec = [])
    /\ (forall c, In c (attempted rec) -> is_recovery_call c = true)
    /\ attempted fin = cleanup_calls worker_id s.
Proof.
  intros Honly Hbody.
  destruct (guarded_after_exception env worker_id body s0 Hbody)
    as (r & rec & fin & Hrun & Hrec & _ & _ & Hnone & Hsteps & _).
  destruct (Hsteps Honly) as (Hr & Hfin & Hvis).
  exists r, rec, fin. auto 10.
Qed.

Lemma termination_steps_in_order_witness :
  let body := connection env_ok "worker" one_at_a_time
                dispatch_then_disconnect in
  let s := snd (body initial_state) in
  exists r rec fin,
    guarded env_ok "worker" body initial_state =
      (r, with_trace (trace s ++ rec ++ fin) s)
    /\ r = Val tt
    /\ visit_logs rec = [LogMarkingPending "A"]
    /\ (is_Exception disconnect_error = false -> rec = [])
    /\ (forall c, In c (attempted rec) -> is_recovery_call c = true)
    /\ attempted fin =
         [RedisClose; DeleteWorkerSession "worker";
          Cancel first_receive; WebsocketClose].
Proof.
  cbv zeta.
  refine (@termination_steps_in_order env_ok "worker"
           (connection env_ok "worker" one_at_a_time dispatch_then_disconnect)
           initial_state
           (snd (connection env_ok "worker" one_at_a_time
                   dispatch_then_disconnect initial_state))
           disconnect_error _ _).
  - intros tr c e He. destruct c; discriminate He.
  - vm_compute. reflexivity.
Defined.

(** ** A [None] from the queue *)

(** C9.  When a completed future gives [None] (the completions iterated
    before it in the same wait having been processed without an
    exception), the loop logs the fact and ends with [RuntimeError]: the
    pending set is left as it was, no dequeue is armed, and the rest of
    the script is not run.  The handler then runs the recovery clause on
    the ledger as it stands, followed by the clean-up; when the
    collaborators raise nothing but [Exception]s the recovery pass visits
    every entry of that ledger, and when its calls return it makes the
    calls planned for every entry. *)
Theorem none_from_queue_ends_loop
    (env : environment) (worker_id : string) (worker_config : WorkerConfig)
    (c : cycle) (script : list cycle)
    (pre post : list (future * completion)) (f : future) (s s1 : state) :
  client_disconnected c = false ->
  waited c = WaitDone (pre ++ (f, ResultNone) :: post) ->
  for_done env worker_id worker_config pre
    (still_pending (pre ++ (f, ResultNone) :: post) s) = (Val tt, s1) ->
  let loop := main_loop env worker_id worker_config (c :: script) in
  let s2 := with_trace (trace s1 ++ [Logged LogReceivedNone]) s1 in
  loop s = (Exc none_from_queue, s2)
  /\ guarded env worker_id loop s =
       try_finally (recovery_handler env none_from_queue)
         (cleanup env worker_id) s2
  /\ exists r rec fin,
       guarded env worker_id loop s =
         (r, with_trace (trace s2 ++ rec ++ fin) s2)
       /\ (forall c, In c (attempted rec) -> is_recovery_call c = true)
       /\ (forall c, In c (attempted fin) -> is_recovery_call c = false)
       /\ (raises_only_Exception env ->
           r = Val tt
           /\ visit_logs rec = map visit (Dict.values (work_request_map s1))
           /\ attempted fin = cleanup_calls worker_id s1)
       /\ (recovery_calls_return env ->
           returned rec =
             flat_map (recovery_plan none_from_queue)
               (Dict.values (work_request_map s1))
           /\ attempted rec =
             flat_map (recovery_plan none_from_queue)
               (Dict.values (work_request_map s1))).
Proof.
  intros Hconn Hwait Hpre loop s2.
  assert (Hloop : loop s = (Exc none_from_queue, s2)).
  { unfold loop. erewrite main_loop_turn by eassumption.
    unfold bind at 1. rewrite for_done_app.
    unfold bind at 1. rewrite Hpre. reflexivity. }
  split; [exact Hloop|]. split.
  - unfold guarded, try_finally, try_except. rewrite Hloop. reflexivity.
  - destruct (guarded_after_exception env worker_id loop s Hloop)
      as (r & rec & fin & Hrun & Hrec & Hfin & _ & _ & Hsteps & Hplan).
    exists r, rec, fin. split; [exact Hrun|]. split; [exact Hrec|].
    split; [exact Hfin|]. split.
    + intros Honly. destruct (Hsteps Honly) as (Hr & Hatt & Hvis). auto.
    + intros Hok. exact (Hplan Hok eq_refl).
Qed.

Lemma none_from_queue_ends_loop_witness :
  let none := completes [({| fid := 2; fkind := Dequeue |}, ResultNone)] in
  let loop := main_loop env_ok "worker" two_at_a_time [none] in
  let s2 := with_trace (trace one_in_flight ++ [Logged LogReceivedNone])
              (still_pending [({| fid := 2; fkind := Dequeue |}, ResultNone)]
                 one_in_flight) in
  pending_futures s2 = [first_receive]
  /\ Dict.values (work_request_map s2) =
       [{| work_request := {| id := "req-A" |};
           message_id := "A";
           num_responses := 0 |}]
  /\ loop one_in_flight = (Exc none_from_queue, s2)
  /\ guarded env_ok "worker" loop one_in_flight =
       try_finally (recovery_handler env_ok none_from_queue)
         (cleanup env_ok "worker") s2
  /\ exists r rec fin,
       guarded env_ok "worker" loop one_in_flight =
         (r, with_trace (trace s2 ++ rec ++ fin) s2)
       /\ (forall c, In c (attempted rec) -> is_recovery_call c = true)
       /\ (forall c, In c (attempted fin) -> is_recovery_call c = false)
       /\ (raises_only_Exception env_ok ->
           r = Val tt
           /\ visit_logs rec = [LogMarkingPending "A"]
           /\ attempted fin =
                [RedisClose; DeleteWorkerSession "worker";
                 Cancel first_receive; WebsocketClose])
       /\ (recovery_calls_return env_ok ->
           returned rec = [ResetWork "A"; WorkQueueEnqueue "A"]
           /\ attempted rec = [ResetWork "A"; WorkQueueEnqueue "A"]).
Proof.
  cbv zeta. split; [reflexivity|]. split; [reflexivity|].
  refine (@none_from_queue_ends_loop env_ok "worker" two_at_a_time
            (completes [({| fid := 2; fkind := Dequeue |}, ResultNone)])
            [] [] [] {| fid := 2; fkind := Dequeue |} one_in_flight
            (still_pending [({| fid := 2; fkind := Dequeue |}, ResultNone)]
               one_in_flight)
            _ _ _); reflexivity.
Defined.

(** ** A failed transmission *)

(** C5, as stated, fails: when [reset_work] raises in its turn, the
    message is not re-enqueued and the exception that reaches the loop
    is that of [reset_work]. *)
Lemma transmission_rollback_fails_when_reset_fails :
  ~ transmission_rollback env_send_and_reset_fail "worker" one_at_a_time "A"
      initial_state.
Proof.
  intros H.
  destruct (H [Called (StartWork "A" "worker") (Return "A");
               Called (BuildWorkRequest "A") (Return "req-A");
               Called (SendWorkRequest {| id := "req-A" |})
                 (Raise (ExternalError "connection closed"));
               Logged (LogSendError "connection closed");
               Called (ResetWork "A")
                 (Raise (ExternalError "database unavailable"))]
              {| id := "req-A" |} (ExternalError "connection closed"))
    as (_ & _ & Hraise & _).
  - reflexivity.
  - cbn. auto.
  - reflexivity.
  - vm_compute in Hraise. discriminate Hraise.
Qed.

Ltac trace_tail H :=
  cbn [trace with_trace snd fst work_request_map] in H;
  rewrite <- ?app_assoc in H; apply app_inv_head in H; cbn [app] in H.

Lemma add_dequeue_only_arms (worker_config : WorkerConfig) (s : state) :
  exists s',
    _add_dequeue worker_config s = (Val tt, s')
    /\ trace s' = trace s
    /\ work_request_map s' = work_request_map s.
Proof.
  unfold _add_dequeue, bind, get_state, add_future, modify, ret.
  destruct (Z.of_nat _ <? _)%Z; eexists; repeat split.
Qed.

(** What the [try] / [finally] of the dispatch branch adds to
    [initiate_work_for_message]. *)
Lemma dispatch_of_initiate (env : environment) (worker_id : string)
    (worker_config : WorkerConfig) (message_id : string) (s : state) :
  let inner := initiate_work_for_message env worker_id message_id s in
  let out := dispatch env worker_id worker_config message_id s in
  trace (snd out) = trace (snd inner)
  /\ (forall e, fst inner = Exc e ->
        fst out = Exc e
        /\ work_request_map (snd out) = work_request_map (snd inner))
  /\ (forall work_request, fst inner = Val work_request ->
        fst out = Val tt
        /\ work_request_map (snd out) =
             Dict.set (id work_request)
               {| work_request := work_request;
                  message_id := message_id;
                  num_responses := 0 |}
               (work_request_map (snd inner))).
Proof.
  cbv zeta.
  destruct (keeps_futures_initiate env worker_id message_id s)
    as (_ & _ & Hsus).
  unfold dispatch, try_finally, bind.
  destruct (initiate_work_for_message env worker_id message_id s)
    as [[wr|e|] s1]; cbn [fst snd] in *; [| |congruence].
  - cbn [modify].
    destruct (add_dequeue_only_arms worker_config
                (with_map (Dict.set (id wr)
                   {| work_request := wr; message_id := message_id;
                      num_responses := 0 |} (work_request_map s1)) s1))
      as (s2 & -> & Htr & Hmap).
    cbn [fst snd]. cbn in Htr, Hmap.
    split; [exact Htr|]. split; [discriminate|].
    intros w [= <-]. split; [reflexivity | exact Hmap].
  - destruct (add_dequeue_only_arms worker_config s1)
      as (s2 & -> & Htr & Hmap).
    cbn [fst snd].
    split; [exact Htr|]. split; [|discriminate].
    intros e' [= <-]. split; [reflexivity | exact Hmap].
Qed.

(** C5, amended.  If the transmission of the work request raises the
    [Exception] [e], the dispatch logs it and calls [reset_work] for the
    message; the dispatch then raises and the ledger is as it was,
    whatever follows.  If [reset_work] raises, nothing is enqueued and its
    exception is the one raised; if it returns, the message id is
    enqueued on the work queue; if that raises, its exception is the one
    raised; if it returns too, the dispatch raises [e]. *)
Theorem transmission_failure_rolls_back
    (env : environment) (worker_id : string) (worker_config : WorkerConfig)
    (message_id : string) (s : state)
    (delta : list event) (work_request : WorkRequest) (e : exn) :
  let out := dispatch env worker_id worker_config message_id s in
  trace (snd out) = trace s ++ delta ->
  In (Called (SendWorkRequest work_request) (Raise e)) delta ->
  is_Exception e = true ->
  work_request_map (snd out) = work_request_map s
  /\ exists message rollback,
       delta =
         [Called (StartWork message_id worker_id) (Return message);
          Called (BuildWorkRequest message) (Return (id work_request));
          Called (SendWorkRequest work_request) (Raise e);
          Logged (LogSendError (str e))] ++ rollback
       /\ ((exists e',
              rollback = [Called (ResetWork message_id) (Raise e')]
              /\ fst out = Exc e')
           \/ (exists v e',
                 rollback = [Called (ResetWork message_id) (Return v);
                             Called (WorkQueueEnqueue message_id) (Raise e')]
                 /\ fst out = Exc e')
           \/ (exists v v',
                 rollback = [Called (ResetWork message_id) (Return v);
                             Called (WorkQueueEnqueue message_id) (Return v')]
                 /\ fst out = Exc e)).
Proof.
  cbv zeta.
  destruct (dispatch_of_initiate env worker_id worker_config message_id s)
    as (Htr & Hexc & _).
  rewrite Htr. clear Htr. revert Hexc.
  generalize (dispatch env worker_id worker_config message_id s).
  intros out.
  unfold initiate_work_for_message, try_except, bind, ext, log, modify, ret,
    raise.
  cbn [trace with_trace]. env_cases env; cbn [fst snd];
    intros Hout Htrace Hin He; trace_tail Htrace; subst delta;
    cbn in Hin;
    repeat (destruct Hin as [Hin|Hin]; [try discriminate Hin|]);
    try contradiction.
  all: injection Hin as <- <-; try congruence.
  all: destruct (Hout _ eq_refl) as [Hfst Hmap]; rewrite Hfst, Hmap.
  all: (split; [reflexivity|]); eexists _, _; (split; [reflexivity|]).
  all: eauto 8.
Qed.

Lemma transmission_failure_rolls_back_witness :
  let out := dispatch env_send_fails "worker" one_at_a_time "A"
               initial_state in
  work_request_map (snd out) = work_request_map initial_state
  /\ exists message rollback,
       [Called (StartWork "A" "worker") (Return "A");
        Called (BuildWorkRequest "A") (Return "req-A");
        Called (SendWorkRequest {| id := "req-A" |})
          (Raise (ExternalError "connection closed"));
        Logged (LogSendError "connection closed");
        Called (ResetWork "A") (Return "");
        Called (WorkQueueEnqueue "A") (Return "")] =
         [Called (StartWork "A" "worker") (Return message);
          Called (BuildWorkRequest message) (Return "req-A");
          Called (SendWorkRequest {| id := "req-A" |})
            (Raise (ExternalError "connection closed"));
          Logged (LogSendError "connection closed")] ++ rollback
       /\ ((exists e',
              rollback = [Called (ResetWork "A") (Raise e')]
              /\ fst out = Exc e')
           \/ (exists v e',
                 rollback = [Called (ResetWork "A") (Return v);
                             Called (WorkQueueEnqueue "A") (Raise e')]
                 /\ fst out = Exc e')
           \/ (exists v v',
                 rollback = [Called (ResetWork "A") (Return v);
                             Called (WorkQueueEnqueue "A") (Return v')]
                 /\ fst out = Exc (ExternalError "connection closed"))).
Proof.
  cbv zeta.
  refine (@transmission_failure_rolls_back env_send_fails "worker"
            one_at_a_time "A" initial_state _ {| id := "req-A" |}
            (ExternalError "connection closed") _ _ _).
  - reflexivity.
  - cbn. auto.
  - reflexivity.
Defined.

(** ** The handler of [generated_text] *)

(** C10.  For a [generated_text] response whose request is in the ledger
    there are two ways the handler can end.  Either [complete_work]
    returned and then the enqueue of the finished notification returned,
    and the entry has been deleted; or one of the two raised, the handler
    raises that exception, and the ledger is untouched: the entry is
    still there, with the [num_responses] it had.  In the second case the
    loop that was processing the response ends with that exception, the
    entry still in the ledger; and if the exception is an [Exception]
    (and the collaborators raise nothing else) the recovery pass visits
    the entry. *)
Theorem generated_text_removes_entry_only_after_success
    (env : environment) (worker_id : string) (worker_config : WorkerConfig)
    (response : WorkerResponse) (s : state)
    (rid : string) (container : WorkRequestContainer) :
  request_id response = Some rid ->
  Dict.get rid (work_request_map s) = Some container ->
  let complete := CompleteWork (message_id container) (text response) in
  let notify message :=
    MessageQueueEnqueue (message_id container) (FinishedPacket message) in
  let out := handle_generated_text_response env response s in
  ((exists message v,
       fst out = Val tt
       /\ trace (snd out) =
            trace s ++ [Called complete (Return message);
                        Called (notify message) (Return v)]
       /\ Dict.del rid (work_request_map s) = Some (work_request_map (snd out)))
   \/
   (exists e,
       fst out = Exc e
       /\ work_request_map (snd out) = work_request_map s
       /\ Dict.get rid (work_request_map (snd out)) = Some container
       /\ (trace (snd out) = trace s ++ [Called complete (Raise e)]
           \/ exists message,
                trace (snd out) =
                  trace s ++ [Called complete (Return message);
                              Called (notify message) (Raise e)])))
  /\
  (forall e c script pre post f s0,
      fst out = Exc e ->
      response_type response = "generated_text" ->
      client_disconnected c = false ->
      waited c = WaitDone (pre ++ (f, ResultResponse response) :: post) ->
      for_done env worker_id worker_config pre
        (still_pending (pre ++ (f, ResultResponse response) :: post) s0)
        = (Val tt, s) ->
      let loop := main_loop env worker_id worker_config (c :: script) in
      exists s2,
        loop s0 = (Exc e, s2)
        /\ Dict.get rid (work_request_map s2) = Some container
        /\ (is_Exception e = true ->
            raises_only_Exception env ->
            exists r rec fin,
              guarded env worker_id loop s0 =
                (r, with_trace (trace s2 ++ rec ++ fin) s2)
              /\ In (visit container) (visit_logs rec))).
Proof.
  intros Hrid Hget complete notify out.
  assert (Hhandler :
    (exists message v,
        fst out = Val tt
        /\ trace (snd out) =
             trace s ++ [Called complete (Return message);
                         Called (notify message) (Return v)]
        /\ Dict.del rid (work_request_map s)
           = Some (work_request_map (snd out)))
    \/
    (exists e,
        fst out = Exc e
        /\ work_request_map (snd out) = work_request_map s
        /\ Dict.get rid (work_request_map (snd out)) = Some container
        /\ (trace (snd out) = trace s ++ [Called complete (Raise e)]
            \/ exists message,
                 trace (snd out) =
                   trace s ++ [Called complete (Return message);
                               Called (notify message) (Raise e)]))).
  { subst out complete notify.
    unfold handle_generated_text_response, bind, lookup,
      get_work_request_container, ext, del_entry.
    rewrite Hrid, Hget. cbn [trace with_trace].
    destruct (env (trace s) _) as [e|message] eqn:Hcomplete.
    - right. exists e. cbn. auto.
    - cbn [trace with_trace].
      destruct (env (trace s ++ _) _) as [e|v] eqn:Hnotify.
      + right. exists e. cbn. split; [reflexivity|].
        split; [reflexivity|]. split; [exact Hget|].
        right. exists message. now rewrite <- app_assoc.
      + left. exists message, v. cbn [work_request_map with_trace].
        destruct (Dict_del_present _ _ Hget) as [d' Hdel].
        rewrite Hdel. cbn. split; [reflexivity|].
        split; [now rewrite <- app_assoc | reflexivity]. }
  split; [exact Hhandler|].
  intros e c script pre post f s0 Hexc Hkind Hconn Hwait Hpre loop.
  destruct Hhandler as [(m & v & Hval & _)|(e' & He' & Hmap & Hstill & _)];
    [congruence|].
  assert (e' = e) as -> by congruence.
  assert (Hroute : route env worker_id response s = (Exc e, snd out)).
  { unfold route. rewrite Hkind. cbn [String.eqb Ascii.eqb Bool.eqb].
    unfold bind. fold out. destruct out as [r s']. cbn [fst snd] in *.
    now subst r. }
  pose proof (receive_passes_on env worker_id worker_config response s)
    as Hrec.
  cbv zeta in Hrec. rewrite Hroute in Hrec. cbn [fst snd] in Hrec.
  destruct Hrec as (Hres & Hmap' & _).
  destruct (receive env worker_id worker_config response s) as [r s2] eqn:Hr.
  cbn [fst snd] in *. subst r.
  assert (Hloop : loop s0 = (Exc e, s2)).
  { unfold loop.
    eapply main_loop_ends_when_process_raises; try eassumption. }
  exists s2. split; [exact Hloop|]. split; [now rewrite Hmap'|].
  intros He Honly.
  destruct (guarded_after_exception env worker_id loop s0 Hloop)
    as (r & rec & fin & Hrun & _ & _ & _ & _ & Hsteps & _).
  destruct (Hsteps Honly) as (_ & _ & Hvis).
  exists r, rec, fin. split; [exact Hrun|].
  rewrite Hvis, He. apply visit_logs_of_visits.
  eapply Dict_get_In_values. rewrite Hmap'. exact Hstill.
Qed.

Lemma generated_text_removes_entry_only_after_success_witness :
  let out := handle_generated_text_response env_complete_fails
               generated_text_for_A one_in_flight in
  (request_id generated_text_for_A = Some "req-A"
   /\ Dict.get "req-A" (work_request_map one_in_flight) = Some container_of_A)
  /\ exists e,
       fst out = Exc e
       /\ work_request_map (snd out) = work_request_map one_in_flight
       /\ Dict.get "req-A" (work_request_map (snd out)) = Some container_of_A.
Proof.
  cbv zeta. split; [split; reflexivity|].
  destruct (@generated_text_removes_entry_only_after_success
              env_complete_fails "worker" two_at_a_time generated_text_for_A
              one_in_flight "req-A" container_of_A eq_refl eq_refl)
    as [[(m & v & Hval & _)|(e & He & Hmap & Hget & _)] _].
  - vm_compute in Hval. discriminate Hval.
  - exists e. auto.
Defined.

(** ** Message ids in the ledger *)

Lemma occurrences_app (l1 l2 : list string) (x : string) :
  occurrences (l1 ++ l2) x = occurrences l1 x + occurrences l2 x.
Proof. apply count_occ_app. Qed.

Lemma grows_weaken {A} (m : M A) (new new' : list string) :
  ledger_grows_by m new ->
  (forall x, occurrences new x <= occurrences new' x) ->
  ledger_grows_by m new'.
Proof. intros H Hle s x. specialize (H s x). specialize (Hle x). lia. Qed.

Lemma grows_bind {A B} (m : M A) (k : A -> M B) (n1 n2 : list string) :
  ledger_grows_by m n1 -> (forall a, ledger_grows_by (k a) n2) ->
  ledger_grows_by (bind m k) (n1 ++ n2).
Proof.
  intros Hm Hk s x. rewrite occurrences_app. unfold bind.
  specialize (Hm s x). destruct (m s) as [[a|e|] s1]; cbn [snd] in *.
  - specialize (Hk a s1 x). lia.
  - lia.
  - lia.
Qed.

Lemma grows_try_except {A} (m : M A) (h : exn -> M A) (n1 n2 : list string) :
  ledger_grows_by m n1 -> (forall e, ledger_grows_by (h e) n2) ->
  ledger_grows_by (try_except m h) (n1 ++ n2).
Proof.
  intros Hm Hh s x. rewrite occurrences_app. unfold try_except.
  specialize (Hm s x). destruct (m s) as [[a|e|] s1]; cbn [snd] in *.
  - lia.
  - destruct (is_Exception e); cbn [snd]; [specialize (Hh e s1 x)|]; lia.
  - lia.
Qed.

Lemma grows_try_finally {A} (m : M A) (f : M unit) (n1 n2 : list string) :
  ledger_grows_by m n1 -> ledger_grows_by f n2 ->
  ledger_grows_by (try_finally m f) (n1 ++ n2).
Proof.
  intros Hm Hf s x. rewrite occurrences_app. unfold try_finally.
  specialize (Hm s x). destruct (m s) as [r s1]; cbn [snd] in *.
  specialize (Hf s1 x).
  destruct r as [a|e|]; [| |cbn [snd]; lia];
    destruct (f s1) as [[u|e'|] s2]; cbn [snd] in *; lia.
Qed.

(** Code that leaves the ledger as it is. *)
Lemma grows_keeps_map {A} (m : M A) :
  (forall s, work_request_map (snd (m s)) = work_request_map s) ->
  ledger_grows_by m [].
Proof. intros H s x. unfold in_flight. rewrite H. lia. Qed.

Lemma grows_keeps_map_ids {A} (m : M A) :
  (forall s, in_flight (snd (m s)) = in_flight s) ->
  ledger_grows_by m [].
Proof. intros H s x. rewrite H. lia. Qed.

Lemma grows_ret {A} (a : A) : ledger_grows_by (ret a) [].
Proof. now apply grows_keeps_map. Qed.

Lemma grows_raise {A} (e : exn) : ledger_grows_by (@raise A e) [].
Proof. now apply grows_keeps_map. Qed.

Lemma grows_ext (env : environment) (c : call) :
  ledger_grows_by (ext env c) [].
Proof.
  apply grows_keeps_map. intros s. unfold ext.
  now destruct (env (trace s) c).
Qed.

Lemma grows_log (l : logmsg) : ledger_grows_by (log l) [].
Proof. now apply grows_keeps_map. Qed.

Lemma grows_get_state : ledger_grows_by get_state [].
Proof. now apply grows_keeps_map. Qed.

Lemma grows_lookup (request_id : option string) :
  ledger_grows_by (lookup request_id) [].
Proof.
  apply grows_keeps_map. intros s. unfold lookup.
  now destruct (get_work_request_container _ _).
Qed.

Lemma grows_with_session (w : WorkerSession) :
  ledger_grows_by (modify (with_session w)) [].
Proof. now apply grows_keeps_map. Qed.

Lemma grows_add_future (k : future_kind) : ledger_grows_by (add_future k) [].
Proof. now apply grows_keeps_map. Qed.

Lemma grows_add_dequeue (worker_config : WorkerConfig) :
  ledger_grows_by (_add_dequeue worker_config) [].
Proof.
  apply grows_keeps_map. intros s.
  destruct (add_dequeue_only_arms worker_config s) as (s' & -> & _ & H).
  exact H.
Qed.

Lemma Dict_del_occurrences (k : string) (d d' : WorkRequestContainerMap)
    (x : string) :
  Dict.del k d = Some d' ->
  occurrences (map message_id (Dict.values d')) x
  <= occurrences (map message_id (Dict.values d)) x.
Proof.
  unfold occurrences, Dict.values. revert d'.
  induction d as [|[k' v'] rest IH]; intros d'; cbn; [discriminate|].
  destruct (String.eqb k k').
  - intros [= <-]. destruct (string_dec (message_id v') x); lia.
  - destruct (Dict.del k rest) as [r|]; [|discriminate].
    intros [= <-]. cbn. specialize (IH r eq_refl).
    destruct (string_dec (message_id v') x); lia.
Qed.

Lemma Dict_set_occurrences (k : string) (v : WorkRequestContainer)
    (d : WorkRequestContainerMap) (x : string) :
  occurrences (map message_id (Dict.values (Dict.set k v d))) x
  <= occurrences (map message_id (Dict.values d)) x
     + occurrences [message_id v] x.
Proof.
  unfold occurrences, Dict.values.
  induction d as [|[k' v'] rest IH]; cbn.
  - destruct (string_dec (message_id v) x); lia.
  - destruct (String.eqb k k'); cbn in *;
      destruct (string_dec (message_id v') x);
      destruct (string_dec (message_id v) x); lia.
Qed.

Lemma Dict_set_same_message (k : string) (v v0 : WorkRequestContainer)
    (d : WorkRequestContainerMap) :
  Dict.get k d = Some v0 ->
  message_id v = message_id v0 ->
  map message_id (Dict.values (Dict.set k v d))
  = map message_id (Dict.values d).
Proof.
  intros Hget Hsame. unfold Dict.values.
  induction d as [|[k' v'] rest IH]; cbn in *; [discriminate|].
  destruct (String.eqb k k').
  - injection Hget as ->. cbn. now rewrite Hsame.
  - cbn. now rewrite (IH Hget).
Qed.

Lemma grows_del_entry (request_id : option string) :
  ledger_grows_by (del_entry request_id) [].
Proof.
  intros s x. unfold del_entry.
  destruct request_id as [rid|]; [|cbn [snd]; lia].
  destruct (Dict.del rid (work_request_map s)) as [d'|] eqn:Hdel;
    cbn [snd]; [|lia].
  unfold in_flight. cbn [work_request_map with_map].
  pose proof (Dict_del_occurrences rid _ x Hdel). lia.
Qed.

Create HintDb ledger discriminated.

#[export] Hint Resolve grows_ret grows_raise grows_ext grows_log
  grows_get_state grows_lookup grows_with_session grows_add_future
  grows_add_dequeue grows_del_entry : ledger.

(** Sequences of ledger-preserving steps. *)
Ltac ledger_kept :=
  repeat first
    [ solve [auto with ledger]
    | apply (@grows_bind _ _ _ _ [] []); [|intro]
    | apply (@grows_try_except _ _ _ [] []); [|intro]
    | apply (@grows_try_finally _ _ _ [] []) ].

Lemma grows_update_session (env : environment) (worker_id metrics : string) :
  ledger_grows_by (_update_session env worker_id metrics) [].
Proof. unfold _update_session. ledger_kept. Qed.

Lemma grows_initiate (env : environment) (worker_id message_id : string) :
  ledger_grows_by (initiate_work_for_message env worker_id message_id) [].
Proof. unfold initiate_work_for_message. ledger_kept. Qed.

Lemma grows_token (env : environment) (response : WorkerResponse) :
  ledger_grows_by (handle_token_response env response) [].
Proof.
  apply grows_keeps_map_ids. intros s.
  unfold handle_token_response, bind, lookup,
    get_work_request_container, increment_num_responses, ext, modify.
  destruct (request_id response) as [rid|]; [|reflexivity].
  destruct (Dict.get rid (work_request_map s)) as [c|] eqn:Hget;
    [|reflexivity].
  destruct (env (trace s) _); [reflexivity|].
  unfold in_flight. cbn [snd work_request_map with_map with_trace].
  now apply Dict_set_same_message with (v0 := c).
Qed.

Lemma grows_route (env : environment) (worker_id : string)
    (response : WorkerResponse) :
  ledger_grows_by (route env worker_id response) [].
Proof.
  unfold route, handle_generated_text_response, handle_error_response,
    handle_general_error_response.
  repeat match goal with
         | |- ledger_grows_by (if ?b then _ else _) _ => destruct b
         end;
    first [ apply grows_token | apply grows_update_session | idtac ];
    ledger_kept; apply grows_update_session.
Qed.

Lemma grows_insert (k : string) (v : WorkRequestContainer) :
  ledger_grows_by
    (modify (fun s => with_map (Dict.set k v (work_request_map s)) s))
    [message_id v].
Proof.
  intros s x. unfold in_flight. cbn [snd modify work_request_map with_map].
  apply Dict_set_occurrences.
Qed.

Section LedgerGrowth.

Variable env : environment.
Variable worker_id : string.
Variable worker_config : WorkerConfig.

Lemma grows_dispatch (message_id : string) :
  ledger_grows_by (dispatch env worker_id worker_config message_id)
    [message_id].
Proof.
  unfold dispatch.
  apply (@grows_try_finally _ _ _ [message_id] []); [|auto with ledger].
  apply (@grows_bind _ _ _ _ [] [message_id]); [apply grows_initiate|].
  intros work_request.
  exact (grows_insert (id work_request)
           {| work_request := work_request; message_id := message_id;
              num_responses := 0 |}).
Qed.

Lemma grows_receive (response : WorkerResponse) :
  ledger_grows_by (receive env worker_id worker_config response) [].
Proof.
  unfold receive, _add_receive.
  apply (@grows_try_finally _ _ _ [] []); [apply grows_route|].
  apply (@grows_bind _ _ _ _ [] []); [auto with ledger|]. intros s.
  apply (@grows_bind _ _ _ _ [] []); [|intro; auto with ledger].
  destruct (Nat.eqb _ 0); auto with ledger.
Qed.

Lemma grows_process (c : completion) :
  ledger_grows_by (process env worker_id worker_config c) (dequeued_of c).
Proof.
  destruct c as [e| |q m|response]; cbn [process dequeued_of].
  - auto with ledger.
  - ledger_kept.
  - apply grows_dispatch.
  - apply grows_receive.
Qed.

Lemma grows_for_done (done : list (future * completion)) :
  ledger_grows_by (for_done env worker_id worker_config done)
    (flat_map (fun fc => dequeued_of (snd fc)) done).
Proof.
  induction done as [|[f c] rest IH]; cbn [for_done flat_map snd].
  - auto with ledger.
  - apply grows_bind; [apply grows_process | intro; exact IH].
Qed.

Lemma grows_main_loop (script : list cycle) :
  ledger_grows_by (main_loop env worker_id worker_config script)
    (dequeued script).
Proof.
  induction script as [|c rest IH]; intros s x.
  - cbn. lia.
  - destruct (client_disconnected c) eqn:Hconn.
    + assert (Hrun : main_loop env worker_id worker_config (c :: rest) s
                     = (Exc disconnect_error, s)).
      { cbn [main_loop]. now rewrite Hconn. }
      rewrite Hrun. cbn [snd]. lia.
    + destruct (waited c) as [e|done] eqn:Hwait.
      * assert (Hrun : main_loop env worker_id worker_config (c :: rest) s
                       = (Exc e, s)).
        { cbn [main_loop]. now rewrite Hconn, Hwait. }
        rewrite Hrun. cbn [snd]. lia.
      * erewrite main_loop_turn by eassumption.
        assert (Hturn :
          ledger_grows_by
            (for_done env worker_id worker_config done ;;
             (match done with
              | [] => ext env SendPing ;; ret tt
              | _ :: _ => ret tt
              end) ;;
             main_loop env worker_id worker_config rest)
            (flat_map (fun fc => dequeued_of (snd fc)) done
             ++ [] ++ dequeued rest)).
        { apply grows_bind; [apply grows_for_done|]. intros _.
          apply grows_bind; [|intros _; exact IH].
          destruct done; ledger_kept. }
        specialize (Hturn (still_pending done s) x).
        unfold dequeued. cbn [flat_map]. fold (dequeued rest).
        unfold dequeued_in at 1. rewrite Hwait.
        exact Hturn.
Qed.

Lemma grows_startup : ledger_grows_by (startup env worker_id worker_config) [].
Proof. unfold startup, _add_receive. ledger_kept. Qed.

Lemma grows_recovery_handler (e : exn) :
  ledger_grows_by (recovery_handler env e) [].
Proof.
  apply grows_keeps_map. intros s.
  destruct (recovery_handler_emits env e s) as (r & d & Hrun & _).
  unfold emits in Hrun. now rewrite Hrun.
Qed.

Lemma grows_cleanup : ledger_grows_by (cleanup env worker_id) [].
Proof.
  apply grows_keeps_map. intros s.
  destruct (cleans_cleanup env worker_id s) as (r & d & Hrun & _).
  unfold emits in Hrun. now rewrite Hrun.
Qed.

Lemma grows_handle_worker (script : list cycle) :
  ledger_grows_by (handle_worker env worker_id worker_config script)
    (dequeued script).
Proof.
  unfold handle_worker, guarded.
  eapply grows_weaken.
  - apply grows_try_finally; [|apply grows_cleanup].
    apply grows_try_except; [|intro; apply grows_recovery_handler].
    apply grows_bind; [apply grows_startup | intro; apply grows_main_loop].
  - intros x. cbn [app]. rewrite !app_nil_r. lia.
Qed.

End LedgerGrowth.

(** Nothing in the loop looks at the message ids already in the ledger:
    with a store whose [start_work] returns for a message that is in
    flight, a message id that the queue delivers twice is dispatched
    twice and sits in two entries. *)
Lemma two_entries_when_redelivery_accepted :
  ~ ledger_uniqueness env_numbered_requests "worker" two_at_a_time
      same_message_twice.
Proof.
  unfold ledger_uniqueness, unique_message_ids. intros H.
  vm_compute in H. apply NoDup_cons_iff in H. destruct H as [H _].
  apply H. now left.
Qed.

Lemma dispatch_refused (env : environment) (worker_id : string)
    (worker_config : WorkerConfig) (message_id : string) (s : state)
    (e : exn) :
  env (trace s) (StartWork message_id worker_id) = Raise e ->
  work_request_map (snd (dispatch env worker_id worker_config message_id s))
  = work_request_map s.
Proof.
  intros Hstart.
  destruct (dispatch_of_initiate env worker_id worker_config message_id s)
    as (_ & Hexc & _).
  assert (Hinner : initiate_work_for_message env worker_id message_id s
                   = (Exc e, with_trace
                               (trace s ++ [Called (StartWork message_id worker_id)
                                              (Raise e)]) s)).
  { unfold initiate_work_for_message, bind, ext. now rewrite Hstart. }
  rewrite Hinner in Hexc. destruct (Hexc e eq_refl) as [_ Hmap].
  exact Hmap.
Qed.

(** A completion that is processed keeps the message ids of the ledger
    distinct provided that, when it is a dequeued message whose id is in
    the ledger already, [start_work] raises for it. *)
Lemma process_keeps_unique (env : environment) (worker_id : string)
    (worker_config : WorkerConfig) (s : state) (c : completion) :
  unique_message_ids s ->
  refused_if_in_flight env worker_id s c ->
  unique_message_ids (snd (process env worker_id worker_config c s)).
Proof.
  intros Huniq Hfresh. unfold unique_message_ids in *.
  destruct c as [e| |q m|response].
  1, 2, 4:
    rewrite (NoDup_count_occ string_dec) in *; intros x;
    match goal with
    | |- context [process _ _ _ ?c ?s0] =>
        pose proof (grows_process env worker_id worker_config c s0 x)
          as Hgrow
    end;
    unfold occurrences in Hgrow; specialize (Huniq x);
    cbn [dequeued_of count_occ] in Hgrow; lia.
  cbn [refused_if_in_flight] in Hfresh.
  destruct (in_dec string_dec m (in_flight s)) as [Hin|Hout].
  - destruct (Hfresh Hin) as [e He].
    cbn [process]. unfold in_flight.
    rewrite (dispatch_refused env worker_id worker_config m s He).
    exact Huniq.
  - rewrite (NoDup_count_occ string_dec) in *. intros x.
    pose proof (grows_process env worker_id worker_config
                  (ResultTuple q m) s x) as Hgrow.
    unfold occurrences in Hgrow. specialize (Huniq x).
    cbn [dequeued_of count_occ] in Hgrow.
    destruct (string_dec m x) as [->|Hne]; [|lia].
    apply (count_occ_not_In string_dec) in Hout. lia.
Qed.

(** If the message ids that the queue hands to the connection are
    pairwise distinct, no message id is in two entries of the ledger at
    the point the script leads to. *)
Lemma unique_when_dequeued_distinct (env : environment) (worker_id : string)
    (worker_config : WorkerConfig) (script : list cycle) :
  NoDup (dequeued script) ->
  ledger_uniqueness env worker_id worker_config script.
Proof.
  intros Hnodup. unfold ledger_uniqueness, unique_message_ids.
  rewrite (NoDup_count_occ string_dec) in *. intros x.
  pose proof (grows_handle_worker env worker_id worker_config script
                initial_state x) as Hgrow.
  unfold occurrences in Hgrow. cbn [in_flight initial_state] in Hgrow.
  specialize (Hnodup x). cbn in Hgrow. lia.
Qed.

(** ** The capacity gate *)

(** C2 does not hold of the code.  With [max_parallel_requests = 1],
    the dequeue and the receive armed at start-up being pending:
    when one wait returns a received response and a dequeued message
    together and the response is iterated first, the receive branch finds
    the pending set empty and the ledger empty and arms a dequeue; the
    dispatch that follows fills the ledger.  The loop then waits with a
    full ledger and a pending dequeue; and when that dequeue completes, a
    second request is dispatched to a worker that takes one at a time. *)
Theorem capacity_invariant_broken_when_both_complete :
  let s1 := snd (handle_worker env_ok "worker" one_at_a_time
                   receive_and_dequeue_together initial_state) in
  let s2 := snd (handle_worker env_ok "worker" one_at_a_time
                   receive_and_dequeue_then_dequeue initial_state) in
  pending_futures (snd (handle_worker env_ok "worker" one_at_a_time
                          [completes []] initial_state))
    = [first_dequeue; first_receive]
  /\ fst (handle_worker env_ok "worker" one_at_a_time
            receive_and_dequeue_together initial_state) = Suspended
  /\ Dict.keys (work_request_map s1) = ["req-A"]
  /\ pending_futures s1 = [{| fid := 2; fkind := Dequeue |};
                           {| fid := 3; fkind := Receive |}]
  /\ ~ capacity_invariant one_at_a_time s1
  /\ Dict.keys (work_request_map s2) = ["req-A"; "req-B"]
  /\ (Z.of_nat (Dict.len (work_request_map s2))
      > max_parallel_requests one_at_a_time)%Z.
Proof.
  cbv zeta. split; [reflexivity|]. split; [reflexivity|].
  split; [reflexivity|]. split; [reflexivity|].
  split; [|split; [reflexivity|]].
  - intros H. specialize (H eq_refl). vm_compute in H. discriminate H.
  - vm_compute. reflexivity.
Qed.

(** ** The name [e] in the recovery pass *)

(** Once the recovery of one entry has raised, the name [e] is unbound:
    for every later entry that has seen responses the handler raises
    [UnboundLocalError] before it calls [abort_work], although the store
    would have accepted the call. *)
Lemma abort_skipped_after_failed_recovery :
  trace (snd (recovery_handler env_reset_fails disconnect_error two_entries))
  = [Logged (LogHandlerError (str disconnect_error));
     Logged (LogMarkingPending "A");
     Called (ResetWork "A") (Raise (ExternalError "database unavailable"));
     Logged (LogResetError "A" "database unavailable");
     Logged (LogAborting "B");
     Logged (LogResetError "B"
       "cannot access local variable 'e' where it is not associated with a value")].
Proof. reflexivity. Qed.

(** C1 does not hold of the code.  Messages [A] and [B] are in flight
    when the worker is found disconnected, [A] without a response and
    [B] with one, and [reset_work] fails.  The recovery of [A] raises
    inside its own [try]; the clause [except Exception as e] that logs
    the failure rebinds the name [e] of the terminating error and
    unbinds it when it ends.  The recovery of [B] then raises
    [UnboundLocalError] at [str(e)], before [abort_work] is called:
    [B], which has seen a response, is never aborted, although
    [abort_work] would have returned, as it does in the same run when
    [reset_work] does not fail. *)
Theorem abort_lost_after_failed_reset :
  let script := two_dispatched_then_disconnect in
  let ended :=
    connection env_reset_fails "worker" two_at_a_time script initial_state in
  let after :=
    snd (handle_worker env_reset_fails "worker" two_at_a_time script
           initial_state) in
  fst ended = Exc disconnect_error
  /\ is_Exception disconnect_error = true
  /\ Dict.values (work_request_map (snd ended))
     = [{| work_request := {| id := "req-A" |};
           message_id := "A"; num_responses := 0 |};
        {| work_request := {| id := "req-B" |};
           message_id := "B"; num_responses := 1 |}]
  /\ (forall tr reason,
        env_reset_fails tr (AbortWork "B" reason) = Return "")
  /\ skipn (length (trace (snd ended))) (trace after)
     = [Logged (LogHandlerError (str disconnect_error));
        Logged (LogMarkingPending "A");
        Called (ResetWork "A") (Raise (ExternalError "database unavailable"));
        Logged (LogResetError "A" "database unavailable");
        Logged (LogAborting "B");
        Logged (LogResetError "B"
          "cannot access local variable 'e' where it is not associated with a value");
        Called RedisClose (Return "");
        Called (DeleteWorkerSession "worker") (Return "");
        Called (Cancel {| fid := 3; fkind := Receive |}) (Return "");
        Called WebsocketClose (Return "")]
  /\ (forall reason, ~ In (AbortWork "B" reason) (attempted (trace after)))
  /\ In (AbortWork "B" (str disconnect_error))
       (returned
          (trace (snd (handle_worker env_ok "worker" two_at_a_time script
                         initial_state)))).
Proof.
  cbv zeta.
  split; [reflexivity|]. split; [reflexivity|]. split; [reflexivity|].
  split; [reflexivity|]. split; [reflexivity|]. split.
  - intros reason H. vm_compute in H.
    repeat (destruct H as [H|H]; [discriminate H|]). exact H.
  - vm_compute. repeat (first [left; reflexivity | right]).
Qed.

(** * Further properties of the handlers *)

(** ** More facts about dictionaries *)

Lemma Dict_get_set_same {V} (k : string) (v : V) (d : Dict.t V) :
  Dict.get k (Dict.set k v d) = Some v.
Proof.
  induction d as [|[k' v'] rest IH]; cbn.
  - now rewrite String.eqb_refl.
  - destruct (String.eqb k k') eqn:Hk; cbn; rewrite Hk; auto.
Qed.

Lemma Dict_get_set_other {V} (k k' : string) (v : V) (d : Dict.t V) :
  k' <> k -> Dict.get k' (Dict.set k v d) = Dict.get k' d.
Proof.
  intros Hne. induction d as [|[k0 v0] rest IH]; cbn.
  - destruct (String.eqb_spec k' k); [contradiction | reflexivity].
  - destruct (String.eqb_spec k k0) as [->|Hk]; cbn.
    + destruct (String.eqb_spec k' k0); [contradiction | reflexivity].
    + destruct (String.eqb k' k0); auto.
Qed.

Lemma Dict_keys_set_present {V} (k : string) (v : V) (d : Dict.t V) :
  In k (Dict.keys d) -> Dict.keys (Dict.set k v d) = Dict.keys d.
Proof.
  unfold Dict.keys. induction d as [|[k' v'] rest IH]; cbn; [intros []|].
  destruct (String.eqb_spec k k') as [->|Hk]; cbn; [reflexivity|].
  intros [H|H]; [congruence|]. now rewrite IH.
Qed.

Lemma Dict_set_absent {V} (k : string) (v : V) (d : Dict.t V) :
  ~ In k (Dict.keys d) -> Dict.set k v d = d ++ [(k, v)].
Proof.
  unfold Dict.keys. induction d as [|[k' v'] rest IH]; cbn; [reflexivity|].
  intros H. destruct (String.eqb_spec k k') as [->|Hk].
  - exfalso. apply H. now left.
  - rewrite IH; [reflexivity|]. intros Hin. apply H. now right.
Qed.

Lemma Dict_set_last {V} (k : string) (v v' : V) (d : Dict.t V) :
  ~ In k (Dict.keys d) ->
  Dict.set k v' (d ++ [(k, v)]) = d ++ [(k, v')].
Proof.
  unfold Dict.keys. induction d as [|[k' v0] rest IH]; cbn.
  - now rewrite String.eqb_refl.
  - intros H. destruct (String.eqb_spec k k') as [->|Hk].
    + exfalso. apply H. now left.
    + rewrite IH; [reflexivity|]. intros Hin. apply H. now right.
Qed.

Lemma Dict_get_last {V} (k : string) (v : V) (d : Dict.t V) :
  ~ In k (Dict.keys d) -> Dict.get k (d ++ [(k, v)]) = Some v.
Proof.
  intros H. rewrite <- (Dict_set_absent k v d H). apply Dict_get_set_same.
Qed.

Lemma Dict_del_last {V} (k : string) (v : V) (d : Dict.t V) :
  ~ In k (Dict.keys d) -> Dict.del k (d ++ [(k, v)]) = Some d.
Proof.
  unfold Dict.keys. induction d as [|[k' v0] rest IH]; cbn.
  - now rewrite String.eqb_refl.
  - intros H. destruct (String.eqb_spec k k') as [->|Hk].
    + exfalso. apply H. now left.
    + rewrite IH; [reflexivity|]. intros Hin. apply H. now right.
Qed.

Lemma Dict_len_set {V} (k : string) (v : V) (d : Dict.t V) :
  Dict.len (Dict.set k v d) <= S (Dict.len d)
  /\ Dict.len d <= Dict.len (Dict.set k v d).
Proof.
  unfold Dict.len. induction d as [|[k' v'] rest IH]; cbn; [lia|].
  destruct (String.eqb k k'); cbn; lia.
Qed.

Lemma Dict_len_set_present {V} (k : string) (v : V) (d : Dict.t V) :
  In k (Dict.keys d) -> Dict.len (Dict.set k v d) = Dict.len d.
Proof.
  intros H. unfold Dict.len.
  rewrite <- (length_map fst (Dict.set k v d)), <- (length_map fst d).
  fold (Dict.keys (Dict.set k v d)). fold (Dict.keys d).
  now rewrite Dict_keys_set_present.
Qed.

Lemma Dict_len_del {V} (k : string) (d d' : Dict.t V) :
  Dict.del k d = Some d' -> Dict.len d = S (Dict.len d').
Proof.
  unfold Dict.len. revert d'.
  induction d as [|[k' v'] rest IH]; intros d'; cbn; [discriminate|].
  destruct (String.eqb k k').
  - now intros [= <-].
  - destruct (Dict.del k rest) as [r|]; [|discriminate].
    intros [= <-]. cbn. now rewrite (IH r eq_refl).
Qed.

Lemma Dict_get_keys {V} (k : string) (d : Dict.t V) (v : V) :
  Dict.get k d = Some v -> In k (Dict.keys d).
Proof.
  intros H. apply Dict_get_Some_In in H.
  unfold Dict.keys. change k with (fst (k, v)). now apply in_map.
Qed.

(** ** The handler of [token] *)

(** X1.  A [token] response for a request of the ledger either puts the
    raw response on the output channel of the entry's message and adds
    one to the entry's [num_responses], every other entry and the order
    of the keys staying as they were, or, when the enqueue raises, raises
    that exception and leaves the ledger untouched: a partial response
    that was not forwarded is not counted. *)
Theorem token_response_counts_after_forwarding
    (env : environment) (response : WorkerResponse) (s : state)
    (rid : string) (container : WorkRequestContainer) :
  request_id response = Some rid ->
  Dict.get rid (work_request_map s) = Some container ->
  let forward :=
    MessageQueueEnqueue (message_id container) (TokenPacket (raw response)) in
  let out := handle_token_response env response s in
  pending_futures (snd out) = pending_futures s
  /\ ((exists v,
         fst out = Val tt
         /\ trace (snd out) = trace s ++ [Called forward (Return v)]
         /\ Dict.get rid (work_request_map (snd out)) = Some (counted container)
         /\ (forall k, k <> rid ->
               Dict.get k (work_request_map (snd out))
               = Dict.get k (work_request_map s))
         /\ Dict.keys (work_request_map (snd out))
            = Dict.keys (work_request_map s))
      \/
      (exists e,
         fst out = Exc e
         /\ trace (snd out) = trace s ++ [Called forward (Raise e)]
         /\ work_request_map (snd out) = work_request_map s)).
Proof.
  intros Hrid Hget forward out. subst out forward.
  unfold handle_token_response, bind, lookup, get_work_request_container,
    ext, increment_num_responses, modify.
  rewrite Hrid, Hget.
  destruct (env (trace s) _) as [e|v]; cbn.
  - split; [reflexivity|]. right. exists e. auto.
  - split; [reflexivity|]. left. exists v.
    split; [reflexivity|]. split; [reflexivity|].
    split; [apply Dict_get_set_same|].
    split; [intros k Hk; now apply Dict_get_set_other|].
    apply Dict_keys_set_present. eapply Dict_get_keys; eassumption.
Qed.

Lemma token_response_counts_after_forwarding_witness :
  let out := handle_token_response env_ok token_for_A one_in_flight in
  Dict.get "req-A" (work_request_map (snd out)) = Some (counted container_of_A).
Proof.
  cbv zeta.
  destruct (@token_response_counts_after_forwarding env_ok token_for_A
              one_in_flight "req-A" container_of_A eq_refl eq_refl)
    as [_ [(v & _ & _ & Hget & _)|(e & Hexc & _)]].
  - exact Hget.
  - vm_compute in Hexc. discriminate Hexc.
Defined.

(** ** The handler of [error] *)

(** X2.  An [error] response for a request of the ledger is logged, then
    [abort_work] is called for the entry's message with the reported
    error as reason.  If the call returns the entry is deleted, and the
    ledger is one entry shorter; if it raises, the handler raises that
    exception and the entry stays in the ledger.  No work is reset or
    re-enqueued on either path, whatever [num_responses] the entry had. *)
Theorem error_response_aborts_then_removes
    (env : environment) (response : WorkerResponse) (s : state)
    (rid : string) (container : WorkRequestContainer) :
  request_id response = Some rid ->
  Dict.get rid (work_request_map s) = Some container ->
  let abort := AbortWork (message_id container) (error response) in
  let out := handle_error_response env response s in
  pending_futures (snd out) = pending_futures s
  /\ ((exists v,
         fst out = Val tt
         /\ trace (snd out) =
              trace s ++ [Logged (LogGotError response);
                          Called abort (Return v)]
         /\ Dict.del rid (work_request_map s)
            = Some (work_request_map (snd out))
         /\ Dict.len (work_request_map s)
            = S (Dict.len (work_request_map (snd out))))
      \/
      (exists e,
         fst out = Exc e
         /\ trace (snd out) =
              trace s ++ [Logged (LogGotError response);
                          Called abort (Raise e)]
         /\ work_request_map (snd out) = work_request_map s)).
Proof.
  intros Hrid Hget abort out. subst out abort.
  unfold handle_error_response, bind, log, modify, lookup,
    get_work_request_container, ext, del_entry.
  cbn [work_request_map with_trace trace]. rewrite Hrid, Hget.
  destruct (env _ _) as [e|v]; cbn [fst snd trace with_trace pending_futures].
  - split; [reflexivity|]. right. exists e.
    split; [reflexivity|]. split; [now rewrite <- app_assoc | reflexivity].
  - cbn [work_request_map with_trace].
    destruct (Dict_del_present _ _ Hget) as [d' Hdel]. rewrite Hdel.
    cbn. split; [reflexivity|]. left. exists v.
    split; [reflexivity|]. split; [now rewrite <- app_assoc|].
    split; [reflexivity | now apply Dict_len_del with (k := rid)].
Qed.

Lemma error_response_aborts_then_removes_witness :
  let out := handle_error_response env_ok error_for_A one_in_flight in
  returned (skipn (length (trace one_in_flight)) (trace (snd out)))
    = [AbortWork "A" "out of memory"]
  /\ work_request_map (snd out) = [].
Proof.
  cbv zeta.
  destruct (@error_response_aborts_then_removes env_ok error_for_A
              one_in_flight "req-A" container_of_A eq_refl eq_refl)
    as [_ [(v & _ & Htrace & Hdel & _)|(e & Hexc & _)]].
  - split.
    + rewrite Htrace. vm_compute. reflexivity.
    + symmetry in Hdel.
      exact (f_equal (fun o => match o with
                               | Some d => d
                               | None => []
                               end) Hdel).
  - vm_compute in Hexc. discriminate Hexc.
Defined.

(** ** Responses that are not tied to a request *)

(** X3.  A [pong] or a [general_error] response never looks into the
    ledger: whatever request id it carries, the router only writes the
    session record, with the response's metrics and the current size of
    the ledger, and stores it (after a warning, for [general_error]).
    The ledger and the pending set are left as they were, and the router
    raises only if storing the session raises. *)
Theorem session_only_responses_leave_ledger
    (env : environment) (worker_id : string) (response : WorkerResponse)
    (s : state) :
  response_type response = "pong"
  \/ response_type response = "general_error" ->
  let report := session_report (response_metrics response) s in
  let warned :=
    if String.eqb (response_type response) "pong" then []
    else [Logged (LogGotGeneralError response)] in
  let out := route env worker_id response s in
  work_request_map (snd out) = work_request_map s
  /\ pending_futures (snd out) = pending_futures s
  /\ worker_session (snd out) = report
  /\ exists a,
       trace (snd out) =
         trace s ++ warned ++ [Called (StoreWorkerSession worker_id report) a]
       /\ fst out = match a with
                    | Return _ => Val tt
                    | Raise e => Exc e
                    end.
Proof.
  intros Hkind report warned out. subst out warned report.
  unfold route, session_report.
  destruct Hkind as [-> | ->]; cbn [String.eqb Ascii.eqb Bool.eqb];
    unfold handle_general_error_response, _update_session, bind, get_state,
      log, modify, ext;
    cbn [work_request_map with_session with_trace trace];
    destruct (env _ _) as [e|v] eqn:Hstore; cbn;
    (split; [reflexivity|]); (split; [reflexivity|]);
    (split; [reflexivity|]); eexists; rewrite <- ?app_assoc;
    (split; [reflexivity|]); reflexivity.
Qed.

Lemma session_only_responses_leave_ledger_witness :
  let out := route env_ok "worker" general_error_naming_Z one_in_flight in
  work_request_map (snd out) = work_request_map one_in_flight
  /\ fst out = Val tt
  /\ requests_in_flight (worker_session (snd out)) = 1.
Proof.
  cbv zeta.
  destruct (@session_only_responses_leave_ledger env_ok "worker"
              general_error_naming_Z one_in_flight (or_intror eq_refl))
    as (Hmap & _ & Hsession & a & _ & _).
  split; [exact Hmap|]. split; [reflexivity|]. now rewrite Hsession.
Defined.

(** ** Responses for a request the ledger does not hold *)

Lemma lookup_unknown (response : WorkerResponse) (s : state) :
  unknown_request response s ->
  lookup (request_id response) s
  = (Exc (WorkRequestNotFound (request_id response)), s).
Proof.
  unfold unknown_request, lookup, get_work_request_container.
  intros [->|(rid & -> & Habsent)]; [reflexivity|].
  apply Dict_get_None_iff in Habsent. now rewrite Habsent.
Qed.

(** X4.  A [token], [generated_text] or [error] response whose request id
    is [None] or is not a key of the ledger makes the router raise
    [WorkRequestNotFound] before any collaborator is called: nothing is
    forwarded, completed or aborted, and the ledger is left as it was
    (an [error] response is logged first).  The loop that was processing
    the response ends with that exception: a response for an unknown
    request closes the connection. *)
Theorem unknown_request_ends_loop
    (env : environment) (worker_id : string) (worker_config : WorkerConfig)
    (response : WorkerResponse) (s : state) :
  response_type response = "token"
  \/ response_type response = "generated_text"
  \/ response_type response = "error" ->
  unknown_request response s ->
  let e := WorkRequestNotFound (request_id response) in
  let logged :=
    if String.eqb (response_type response) "error"
    then [Logged (LogGotError response)] else [] in
  route env worker_id response s = (Exc e, with_trace (trace s ++ logged) s)
  /\ is_Exception e = true
  /\ forall c script pre post f s0,
       client_disconnected c = false ->
       waited c = WaitDone (pre ++ (f, ResultResponse response) :: post) ->
       for_done env worker_id worker_config pre
         (still_pending (pre ++ (f, ResultResponse response) :: post) s0)
         = (Val tt, s) ->
       exists s2,
         main_loop env worker_id worker_config (c :: script) s0 = (Exc e, s2)
         /\ work_request_map s2 = work_request_map s
         /\ trace s2 = trace s ++ logged.
Proof.
  intros Hkind Hunknown e logged.
  assert (Hroute : route env worker_id response s
                   = (Exc e, with_trace (trace s ++ logged) s)).
  { subst e logged. unfold route.
    destruct Hkind as [-> | [-> | ->]]; cbn [String.eqb Ascii.eqb Bool.eqb];
      unfold handle_token_response, handle_generated_text_response,
        handle_error_response, bind, log, modify.
    - rewrite (lookup_unknown Hunknown).
      now rewrite app_nil_r, with_trace_same.
    - rewrite (lookup_unknown Hunknown).
      now rewrite app_nil_r, with_trace_same.
    - rewrite (@lookup_unknown response
                 (with_trace (trace s ++ [Logged (LogGotError response)]) s));
        [reflexivity | exact Hunknown]. }
  split; [exact Hroute|]. split; [reflexivity|].
  intros c script pre post f s0 Hconn Hwait Hpre.
  pose proof (receive_passes_on env worker_id worker_config response s)
    as Hrec.
  cbv zeta in Hrec. rewrite Hroute in Hrec. cbn [fst snd] in Hrec.
  destruct Hrec as (Hres & Hmap & Htrace).
  destruct (receive env worker_id worker_config response s) as [r s2] eqn:Hr.
  cbn [fst snd] in *. subst r.
  exists s2. split; [|split; [exact Hmap | exact Htrace]].
  eapply main_loop_ends_when_process_raises; eassumption.
Qed.

Lemma unknown_request_ends_loop_witness :
  route env_ok "worker" token_for_Z one_in_flight
  = (Exc (WorkRequestNotFound (Some "req-Z")), one_in_flight).
Proof.
  destruct (@unknown_request_ends_loop env_ok "worker" two_at_a_time
              token_for_Z one_in_flight (or_introl eq_refl))
    as (Hroute & _).
  - right. exists "req-Z". split; [reflexivity|].
    cbn. intros [H|[]]. discriminate H.
  - exact Hroute.
Defined.

(** ** The recovery pass once [e] is unbound *)

Lemma skipn_past {A} (l d : list A) : skipn (length l) (l ++ d) = d.
Proof.
  rewrite skipn_app, skipn_all, Nat.sub_diag. reflexivity.
Qed.

Lemma emits_unique {A} (m : M A) (s : state) (r r' : result A)
    (d d' : list event) :
  emits m s r d -> emits m s r' d' -> r = r' /\ d = d'.
Proof.
  unfold emits. intros -> [= <- H]. split; [reflexivity|].
  now apply app_inv_head in H.
Qed.

Section Unbound.

Variable env : environment.

Lemma recover_unbound (container : WorkRequestContainer) (s : state) :
  exists r delta,
    emits (recover env container None) s r delta
    /\ (r = Val None \/ exists x, r = Exc x)
    /\ (forall c, In c (attempted delta) -> is_abort c = false).
Proof.
  unfold emits, recover, try_except, bind, log, modify, ext, ret, raise.
  destruct (Nat.eqb (num_responses container) 0);
    cbn [trace with_trace is_Exception];
    env_cases env;
    (eexists _, _; split; [emitted|]); cbn.
  all: split; [eauto|].
  all: intros c Hc; repeat (destruct Hc as [<-|Hc]; [reflexivity|]);
    destruct Hc.
Qed.

Lemma recover_all_unbound (containers : list WorkRequestContainer)
    (s : state) :
  exists r delta,
    emits (recover_all env containers None) s r delta
    /\ (forall c, In c (attempted delta) -> is_abort c = false).
Proof.
  revert s. induction containers as [|container rest IH]; intros s.
  - exists (Val tt), []. split; [now apply emits_nothing | intros c []].
  - destruct (recover_unbound container s)
      as (r1 & d1 & Hrun1 & Hres1 & Hcalls1).
    destruct Hres1 as [-> | [x ->]].
    + destruct (IH (with_trace (trace s ++ d1) s))
        as (r2 & d2 & Hrun2 & Hcalls2).
      exists r2, (d1 ++ d2). split.
      * cbn [recover_all]. eapply emits_bind; eassumption.
      * intros c. rewrite attempted_app, in_app_iff. intros [H|H]; auto.
    + exists (Exc x), d1. split; [|exact Hcalls1].
      cbn [recover_all]. now apply emits_bind_stop.
Qed.

(** Recovery of an entry leaves [e] unbound exactly when one of its
    calls raised an [Exception]. *)
Lemma recover_unbinds_iff (container : WorkRequestContainer) (e : exn)
    (s : state) :
  let first := recover env container (Some e) s in
  fst first = Val None
  <-> exists call x,
        In (Called call (Raise x))
          (skipn (length (trace s)) (trace (snd first)))
        /\ is_Exception x = true.
Proof.
  cbv zeta.
  unfold recover, try_except, bind, log, modify, ext, ret, raise.
  destruct (Nat.eqb (num_responses container) 0);
    cbn [trace with_trace is_Exception]; env_cases env;
    cbn [fst snd trace with_trace]; rewrite <- ?app_assoc, skipn_past;
    cbn [app]; split.
  all: try (intros _; eexists _, _; split;
            [cbn; eauto 6 | eassumption]).
  all: try discriminate.
  all: intros (call & x & Hin & Hx); cbn in Hin;
    repeat (destruct Hin as [Hin|Hin]; [try discriminate Hin|]);
    try contradiction.
  all: try (injection Hin as <- <-; congruence).
Qed.

End Unbound.

(** X5.  In the recovery pass, the recovery of an entry leaves the name
    [e] unbound exactly when one of its calls raised an [Exception].
    From then on the pass never calls [abort_work]: every later entry
    that has seen responses is visited and logged, and left neither
    aborted nor reset, whether or not the store would have accepted the
    call. *)
Theorem recovery_never_aborts_after_a_failure
    (env : environment) (container : WorkRequestContainer)
    (rest : list WorkRequestContainer) (e : exn) (s : state) :
  let first := recover env container (Some e) s in
  (fst first = Val None
   <-> exists call x,
         In (Called call (Raise x))
           (skipn (length (trace s)) (trace (snd first)))
         /\ is_Exception x = true)
  /\ (fst first = Val None ->
      exists r delta,
        recover_all env (container :: rest) (Some e) s
        = (r, with_trace (trace (snd first) ++ delta) (snd first))
        /\ (forall c, In c (attempted delta) -> is_abort c = false)
        /\ (raises_only_Exception env ->
            r = Val tt /\ visit_logs delta = map visit rest)).
Proof.
  cbv zeta. split; [apply recover_unbinds_iff|].
  intros Hnone.
  destruct (recover env container (Some e) s) as [r1 s1] eqn:Hfirst.
  cbn [fst snd] in *. subst r1.
  destruct (recover_all_unbound env rest s1) as (r & delta & Hrun & Hcalls).
  exists r, delta. split; [|split; [exact Hcalls|]].
  - cbn [recover_all]. unfold bind. rewrite Hfirst. exact Hrun.
  - intros Honly.
    destruct (recover_all_emits env rest None s1)
      as (r' & d' & Hrun' & _ & _ & Hvisits & _).
    destruct (emits_unique Hrun Hrun') as [-> ->].
    exact (Hvisits Honly).
Qed.

Lemma recovery_never_aborts_after_a_failure_witness :
  let entry_A := {| work_request := {| id := "req-A" |};
                    message_id := "A"; num_responses := 0 |} in
  let entry_B := {| work_request := {| id := "req-B" |};
                    message_id := "B"; num_responses := 2 |} in
  let first := recover env_reset_fails entry_A (Some disconnect_error)
                 two_entries in
  fst first = Val None
  /\ exists r delta,
       recover_all env_reset_fails [entry_A; entry_B] (Some disconnect_error)
         two_entries
       = (r, with_trace (trace (snd first) ++ delta) (snd first))
       /\ (forall c, In c (attempted delta) -> is_abort c = false)
       /\ (raises_only_Exception env_reset_fails ->
           r = Val tt /\ visit_logs delta = [LogAborting "B"]).
Proof.
  cbv zeta. split; [reflexivity|].
  refine (proj2 (@recovery_never_aborts_after_a_failure env_reset_fails
                   {| work_request := {| id := "req-A" |};
                      message_id := "A"; num_responses := 0 |}
                   [{| work_request := {| id := "req-B" |};
                       message_id := "B"; num_responses := 2 |}]
                   disconnect_error two_entries) _).
  reflexivity.
Defined.

(** ** Exceptions that leave the handler *)

Lemma contains_bind {A B} (m : M A) (k : A -> M B) :
  contains_Exceptions m -> (forall a, contains_Exceptions (k a)) ->
  contains_Exceptions (bind m k).
Proof.
  intros Hm Hk s e. unfold bind. specialize (Hm s).
  destruct (m s) as [[a|x|] s1]; cbn [fst] in *.
  - apply Hk.
  - intros [= <-]. now apply Hm.
  - discriminate.
Qed.

Lemma contains_get_state : contains_Exceptions get_state.
Proof. intros s e. discriminate. Qed.

Section Containment.

Variable env : environment.
Variable worker_id : string.

Lemma contains_recover (container : WorkRequestContainer) (e : option exn) :
  contains_Exceptions (recover env container e).
Proof.
  intros s x.
  unfold recover, try_except, bind, log, modify, ext, ret, raise.
  destruct (Nat.eqb (num_responses container) 0); [|destruct e as [e0|]];
    cbn [trace with_trace is_Exception]; env_cases env; cbn [fst];
    intros H;
    first [discriminate H | reflexivity | injection H as <-; congruence].
Qed.

Lemma contains_recover_all (containers : list WorkRequestContainer)
    (e : option exn) :
  contains_Exceptions (recover_all env containers e).
Proof.
  revert e. induction containers as [|container rest IH]; intros e.
  - intros s x. discriminate.
  - cbn [recover_all]. apply contains_bind; [apply contains_recover|].
    intros e'. apply IH.
Qed.

Lemma contains_recovery_handler (e : exn) :
  contains_Exceptions (recovery_handler env e).
Proof.
  unfold recovery_handler.
  apply contains_bind; [intros s x; discriminate|]. intros _.
  apply contains_bind; [apply contains_get_state|]. intros s.
  apply contains_recover_all.
Qed.

Lemma contains_best_effort (c : call) (l : logmsg) :
  contains_Exceptions (best_effort env c l).
Proof.
  intros s x. unfold best_effort, try_except, bind, ext, log, modify, ret.
  env_cases env; cbn [fst];
    intros H;
    first [discriminate H | reflexivity | injection H as <-; congruence].
Qed.

Lemma contains_cancel_all (ftrs : list future) :
  contains_Exceptions (cancel_all env ftrs).
Proof.
  induction ftrs as [|ftr rest IH].
  - intros s x. discriminate.
  - cbn [cancel_all]. apply contains_bind; [apply contains_best_effort|].
    intros _. exact IH.
Qed.

Lemma contains_cleanup : contains_Exceptions (cleanup env worker_id).
Proof.
  unfold cleanup.
  apply contains_bind; [apply contains_best_effort|]. intros _.
  apply contains_bind; [apply contains_best_effort|]. intros _.
  apply contains_bind; [apply contains_get_state|]. intros s.
  apply contains_bind; [apply contains_cancel_all|]. intros _.
  apply contains_best_effort.
Qed.

Lemma contains_guarded (body : M unit) :
  contains_Exceptions (guarded env worker_id body).
Proof.
  intros s x. unfold guarded, try_finally, try_except.
  destruct (body s) as [[u|e|] s1]; [| |discriminate].
  - pose proof (contains_cleanup s1 (e := x)) as Hclean.
    destruct (cleanup env worker_id s1) as [[u'|e'|] s2]; cbn [fst] in *;
      [discriminate | exact Hclean | discriminate].
  - destruct (is_Exception e) eqn:He.
    + pose proof (contains_recovery_handler e s1) as Hrec.
      destruct (recovery_handler env e s1) as [[u|e1|] s2]; cbn [fst] in *;
        [| |discriminate];
        pose proof (contains_cleanup s2 (e := x)) as Hclean;
        destruct (cleanup env worker_id s2) as [[u'|e'|] s3];
        cbn [fst] in *; try discriminate; try exact Hclean.
      intros [= <-]. now apply Hrec.
    + pose proof (contains_cleanup s1 (e := x)) as Hclean.
      destruct (cleanup env worker_id s1) as [[u'|e'|] s2]; cbn [fst] in *;
        [|exact Hclean | discriminate].
      now intros [= <-].
Qed.

End Containment.

(** X8.  The [try] statement of [handle_worker], which the handler
    enters once the websocket is accepted and the worker's configuration
    received, lets no [Exception] out: whatever the collaborators and
    the worker do from there on, if the statement ends with an
    exception, that exception is not an [Exception] (it is a
    cancellation).  Every store, queue, protocol or transport error
    raised inside the statement ends the connection and is absorbed.
    The calls that [handle_worker] makes before the statement are not
    covered. *)
Theorem try_of_handle_worker_contains_Exceptions
    (env : environment) (worker_id : string) (worker_config : WorkerConfig)
    (script : list cycle) (s : state) (e : exn) :
  fst (handle_worker env worker_id worker_config script s) = Exc e ->
  is_Exception e = false.
Proof.
  unfold handle_worker. apply contains_guarded.
Qed.

Lemma try_of_handle_worker_contains_Exceptions_witness :
  fst (handle_worker env_ok "worker" one_at_a_time dispatch_then_cancel
         initial_state) = Exc CancelledError
  /\ is_Exception CancelledError = false.
Proof.
  assert (H : fst (handle_worker env_ok "worker" one_at_a_time
                     dispatch_then_cancel initial_state)
              = Exc CancelledError) by reflexivity.
  split; [exact H|].
  exact (@try_of_handle_worker_contains_Exceptions env_ok "worker"
           one_at_a_time dispatch_then_cancel initial_state CancelledError H).
Defined.

(** ** The dispatch of a dequeued message *)

(** The ways [initiate_work_for_message] can end without a rollback. *)
Lemma initiate_outcomes (env : environment) (worker_id message_id : string)
    (s : state) :
  let inner := initiate_work_for_message env worker_id message_id s in
  work_request_map (snd inner) = work_request_map s
  /\ exists delta,
       trace (snd inner) = trace s ++ delta
       /\ ((exists message work_request v,
              fst inner = Val work_request
              /\ delta =
                   [Called (StartWork message_id worker_id) (Return message);
                    Called (BuildWorkRequest message)
                      (Return (id work_request));
                    Called (SendWorkRequest work_request) (Return v)])
           \/ (exists e,
                 fst inner = Exc e
                 /\ ((forall c, In c (attempted delta) ->
                        is_recovery_call c = false)
                     \/ exists work_request x,
                          In (Called (SendWorkRequest work_request) (Raise x))
                            delta
                          /\ is_Exception x = true))).
Proof.
  cbv zeta.
  unfold initiate_work_for_message, try_except, bind, ext, log, modify, ret,
    raise.
  cbn [trace with_trace]. env_cases env;
    cbn [fst snd trace with_trace work_request_map];
    (split; [reflexivity|]); rewrite <- ?app_assoc; cbn [app];
    eexists; (split; [reflexivity|]).
  all: first
    [ left; eexists _, {| id := _ |}, _; split; reflexivity
    | right; eexists; split; [reflexivity|];
      first
        [ solve [ left; intros c Hc; cbn in Hc;
                  repeat (destruct Hc as [<-|Hc]; [reflexivity|]);
                  destruct Hc ]
        | right; eexists _, _; split; [cbn; eauto 8 | assumption] ] ].
Qed.

(** X6.  When the dispatch of a dequeued message returns, the message
    was marked started, a work request was built for it and sent to the
    worker, in this order, and the ledger holds under the request's id a
    new entry for the message with no response counted, which the lookup
    finds; every other key keeps its entry.  If the request id was
    already a key, its place is kept and its former entry is overwritten;
    otherwise the new entry is the last of the ledger. *)
Theorem dispatch_success_enters_ledger
    (env : environment) (worker_id : string) (worker_config : WorkerConfig)
    (message_id : string) (s : state) :
  let out := dispatch env worker_id worker_config message_id s in
  fst out = Val tt ->
  exists message work_request v,
    trace (snd out) =
      trace s ++ [Called (StartWork message_id worker_id) (Return message);
                  Called (BuildWorkRequest message) (Return (id work_request));
                  Called (SendWorkRequest work_request) (Return v)]
    /\ lookup (Some (id work_request)) (snd out)
       = (Val (fresh_entry work_request message_id), snd out)
    /\ (forall k, k <> id work_request ->
          Dict.get k (work_request_map (snd out))
          = Dict.get k (work_request_map s))
    /\ (In (id work_request) (Dict.keys (work_request_map s)) ->
        Dict.keys (work_request_map (snd out))
        = Dict.keys (work_request_map s))
    /\ (~ In (id work_request) (Dict.keys (work_request_map s)) ->
        work_request_map (snd out)
        = work_request_map s
          ++ [(id work_request, fresh_entry work_request message_id)]).
Proof.
  cbv zeta. intros Hok.
  destruct (dispatch_of_initiate env worker_id worker_config message_id s)
    as (Htr & Hexc & Hval).
  destruct (initiate_outcomes env worker_id message_id s)
    as (Hmap & delta & Hdelta & [(message & wr & v & Hres & ->)
                                |(e & Hres & _)]).
  - destruct (Hval wr Hres) as [_ Hset]. rewrite Hmap in Hset.
    exists message, wr, v. split; [now rewrite Htr|].
    fold (fresh_entry wr message_id) in Hset.
    split; [|split; [|split]].
    + unfold lookup, get_work_request_container.
      now rewrite Hset, Dict_get_set_same.
    + intros k Hk. rewrite Hset. now apply Dict_get_set_other.
    + intros Hin. rewrite Hset. now apply Dict_keys_set_present.
    + intros Hout. rewrite Hset. now apply Dict_set_absent.
  - destruct (Hexc e Hres) as [Hraise _]. congruence.
Qed.

Lemma dispatch_success_enters_ledger_witness :
  let out := dispatch env_ok "worker" one_at_a_time "A" initial_state in
  fst out = Val tt
  /\ exists message work_request v,
       trace (snd out) =
         trace initial_state
         ++ [Called (StartWork "A" "worker") (Return message);
             Called (BuildWorkRequest message) (Return (id work_request));
             Called (SendWorkRequest work_request) (Return v)]
       /\ lookup (Some (id work_request)) (snd out)
          = (Val (fresh_entry work_request "A"), snd out)
       /\ (forall k, k <> id work_request ->
             Dict.get k (work_request_map (snd out))
             = Dict.get k (work_request_map initial_state))
       /\ (In (id work_request) (Dict.keys (work_request_map initial_state)) ->
           Dict.keys (work_request_map (snd out))
           = Dict.keys (work_request_map initial_state))
       /\ (~ In (id work_request)
               (Dict.keys (work_request_map initial_state)) ->
           work_request_map (snd out)
           = work_request_map initial_state
             ++ [(id work_request, fresh_entry work_request "A")]).
Proof.
  cbv zeta. split; [reflexivity|].
  exact (@dispatch_success_enters_ledger env_ok "worker" one_at_a_time "A"
           initial_state eq_refl).
Defined.

(** X7.  A dispatch that raises leaves the ledger as it was, and it
    calls [reset_work] or re-enqueues the message only if the
    transmission of the work request raised an [Exception].  When
    [start_work] or the building of the request raises, or when the
    transmission is cancelled, nothing is rolled back and the dequeued
    message id is not put back on the queue. *)
Theorem dispatch_rolls_back_only_failed_transmission
    (env : environment) (worker_id : string) (worker_config : WorkerConfig)
    (message_id : string) (s : state) (e : exn) :
  let out := dispatch env worker_id worker_config message_id s in
  fst out = Exc e ->
  work_request_map (snd out) = work_request_map s
  /\ exists delta,
       trace (snd out) = trace s ++ delta
       /\ ((forall c, In c (attempted delta) -> is_recovery_call c = false)
           \/ exists work_request x,
                In (Called (SendWorkRequest work_request) (Raise x)) delta
                /\ is_Exception x = true).
Proof.
  cbv zeta. intros Hraise.
  destruct (dispatch_of_initiate env worker_id worker_config message_id s)
    as (Htr & Hexc & Hval).
  destruct (initiate_outcomes env worker_id message_id s)
    as (Hmap & delta & Hdelta & [(message & wr & v & Hres & _)
                                |(e' & Hres & Hcases)]).
  - destruct (Hval wr Hres) as [Hok _]. congruence.
  - destruct (Hexc e' Hres) as [_ Hsame].
    split; [now rewrite Hsame|].
    exists delta. split; [now rewrite Htr | exact Hcases].
Qed.

Lemma dispatch_rolls_back_only_failed_transmission_witness :
  let out := dispatch env_send_cancelled "worker" one_at_a_time "A"
               initial_state in
  fst out = Exc CancelledError
  /\ attempted (trace (snd out))
     = [StartWork "A" "worker"; BuildWorkRequest "A";
        SendWorkRequest {| id := "req-A" |}]
  /\ work_request_map (snd out) = work_request_map initial_state.
Proof.
  cbv zeta. split; [reflexivity|]. split; [reflexivity|].
  exact (proj1 (@dispatch_rolls_back_only_failed_transmission
                  env_send_cancelled "worker" one_at_a_time "A"
                  initial_state CancelledError eq_refl)).
Defined.

(** ** One completion per wait *)

Lemma never_longer_bind {A B} (m : M A) (k : A -> M B) :
  never_longer m -> (forall a, never_longer (k a)) ->
  never_longer (bind m k).
Proof.
  intros Hm Hk s. unfold bind. specialize (Hm s).
  destruct (m s) as [[a|e|] s1]; cbn [snd] in *; [|lia|lia].
  specialize (Hk a s1). lia.
Qed.

Lemma never_longer_try_except {A} (m : M A) (h : exn -> M A) :
  never_longer m -> (forall e, never_longer (h e)) ->
  never_longer (try_except m h).
Proof.
  intros Hm Hh s. unfold try_except. specialize (Hm s).
  destruct (m s) as [[a|e|] s1]; cbn [snd] in *; [lia| |lia].
  destruct (is_Exception e); cbn [snd]; [specialize (Hh e s1)|]; lia.
Qed.

Lemma never_longer_keeps_map {A} (m : M A) :
  (forall s, work_request_map (snd (m s)) = work_request_map s) ->
  never_longer m.
Proof. intros H s. rewrite H. lia. Qed.

Lemma never_longer_ext (env : environment) (c : call) :
  never_longer (ext env c).
Proof.
  apply never_longer_keeps_map. intros s. unfold ext.
  now destruct (env (trace s) c).
Qed.

Lemma never_longer_log (l : logmsg) : never_longer (log l).
Proof. now apply never_longer_keeps_map. Qed.

Lemma never_longer_lookup (request_id : option string) :
  never_longer (lookup request_id).
Proof.
  apply never_longer_keeps_map. intros s. unfold lookup.
  now destruct (get_work_request_container _ _).
Qed.

Lemma never_longer_del_entry (request_id : option string) :
  never_longer (del_entry request_id).
Proof.
  intros s. unfold del_entry.
  destruct request_id as [rid|]; [|cbn [snd]; lia].
  destruct (Dict.del rid (work_request_map s)) as [d'|] eqn:Hdel;
    cbn [snd work_request_map with_map]; [|lia].
  rewrite (Dict_len_del _ _ Hdel). lia.
Qed.

Lemma never_longer_update_session (env : environment)
    (worker_id metrics : string) :
  never_longer (_update_session env worker_id metrics).
Proof.
  apply never_longer_keeps_map. intros s.
  unfold _update_session, bind, get_state, modify, ext.
  cbn [trace with_session]. now destruct (env _ _).
Qed.

Lemma never_longer_token (env : environment) (response : WorkerResponse) :
  never_longer (handle_token_response env response).
Proof.
  intros s. unfold handle_token_response, bind, lookup,
    get_work_request_container, increment_num_responses, ext, modify.
  destruct (request_id response) as [rid|]; [|cbn [snd]; lia].
  destruct (Dict.get rid (work_request_map s)) as [c|] eqn:Hget;
    [|cbn [snd]; lia].
  destruct (env (trace s) _); cbn [snd work_request_map with_map with_trace];
    [lia|].
  rewrite Dict_len_set_present; [lia|]. eapply Dict_get_keys; eassumption.
Qed.

Lemma never_longer_route (env : environment) (worker_id : string)
    (response : WorkerResponse) :
  never_longer (route env worker_id response).
Proof.
  unfold route, handle_generated_text_response, handle_error_response,
    handle_general_error_response.
  repeat match goal with
         | |- never_longer (if ?b then _ else _) => destruct b
         end;
    repeat first
      [ apply never_longer_token
      | apply never_longer_update_session
      | apply never_longer_ext
      | apply never_longer_log
      | apply never_longer_lookup
      | apply never_longer_del_entry
      | apply never_longer_bind; [|intro] ].
  now apply never_longer_keeps_map.
Qed.

Lemma add_dequeue_state (worker_config : WorkerConfig) (s : state) :
  _add_dequeue worker_config s
  = (Val tt,
     if (Z.of_nat (Dict.len (work_request_map s))
         <? max_parallel_requests worker_config)%Z
     then armed Dequeue s else s).
Proof.
  unfold _add_dequeue, bind, get_state.
  now destruct (Z.of_nat _ <? _)%Z.
Qed.

(** The state in which the dispatch branch leaves the connection. *)
Lemma dispatch_state (env : environment) (worker_id : string)
    (worker_config : WorkerConfig) (message_id : string) (s : state) :
  exists s1,
    pending_futures s1 = pending_futures s
    /\ Dict.len (work_request_map s1) <= S (Dict.len (work_request_map s))
    /\ snd (dispatch env worker_id worker_config message_id s)
       = if (Z.of_nat (Dict.len (work_request_map s1))
             <? max_parallel_requests worker_config)%Z
         then armed Dequeue s1 else s1.
Proof.
  destruct (keeps_futures_initiate env worker_id message_id s)
    as (Hp & _ & Hsus).
  destruct (initiate_outcomes env worker_id message_id s) as (Hmap & _).
  unfold dispatch, try_finally, bind.
  destruct (initiate_work_for_message env worker_id message_id s)
    as [[wr|e|] s0]; cbn [fst snd] in *; [| |congruence].
  - cbn [modify]. rewrite add_dequeue_state. cbn [snd].
    eexists. split; [|split; [|reflexivity]].
    + exact Hp.
    + cbn [work_request_map with_map]. rewrite <- Hmap.
      apply Dict_len_set.
  - rewrite add_dequeue_state. cbn [snd].
    exists s0. split; [exact Hp|]. split; [rewrite Hmap; lia | reflexivity].
Qed.

(** The state in which the receive branch leaves the connection. *)
Lemma receive_state (env : environment) (worker_id : string)
    (worker_config : WorkerConfig) (response : WorkerResponse) (s : state) :
  exists s1,
    pending_futures s1 = pending_futures s
    /\ Dict.len (work_request_map s1) <= Dict.len (work_request_map s)
    /\ snd (receive env worker_id worker_config response s)
       = armed Receive
           (if Nat.eqb (length (pending_futures s)) 0
            then if (Z.of_nat (Dict.len (work_request_map s1))
                     <? max_parallel_requests worker_config)%Z
                 then armed Dequeue s1 else s1
            else s1).
Proof.
  destruct (keeps_futures_route env worker_id response s) as (Hp & _ & Hsus).
  pose proof (never_longer_route env worker_id response s) as Hlen.
  unfold receive, try_finally.
  destruct (route env worker_id response s) as [r s1]; cbn [fst snd] in *.
  exists s1. split; [exact Hp|]. split; [exact Hlen|].
  destruct r as [u|e|]; [| |congruence];
    unfold bind, get_state, _add_receive; rewrite Hp;
    (destruct (Nat.eqb (length (pending_futures s)) 0);
     [rewrite add_dequeue_state|]); reflexivity.
Qed.

Lemma filter_filter_le {A} (p q : A -> bool) (l : list A) :
  length (filter p (filter q l)) <= length (filter p l).
Proof.
  induction l as [|a l IH]; cbn; [lia|].
  destruct (q a); cbn; destruct (p a); cbn; lia.
Qed.

Lemma filter_filter_lt {A} (p q : A -> bool) (l : list A) (a : A) :
  In a l -> p a = true -> q a = false ->
  length (filter p (filter q l)) < length (filter p l).
Proof.
  intros Hin Hp Hq. induction l as [|b l IH]; cbn; [destruct Hin|].
  pose proof (filter_filter_le p q l) as Hle.
  destruct Hin as [->|Hin].
  - rewrite Hq, Hp. cbn. lia.
  - specialize (IH Hin). destruct (q b); cbn; destruct (p b); cbn; lia.
Qed.

Lemma still_pending_counts (done : list (future * completion)) (s : state) :
  pending_dequeues (still_pending done s) <= pending_dequeues s
  /\ pending_receives (still_pending done s) <= pending_receives s
  /\ work_request_map (still_pending done s) = work_request_map s.
Proof.
  unfold pending_dequeues, pending_receives, still_pending.
  cbn [pending_futures with_pending work_request_map].
  split; [apply filter_filter_le|]. split; [apply filter_filter_le|].
  reflexivity.
Qed.

Lemma still_pending_drops (f : future) (x : completion) (s : state)
    (p : future -> bool) :
  In f (pending_futures s) -> p f = true ->
  length (filter p (pending_futures (still_pending [(f, x)] s)))
  < length (filter p (pending_futures s)).
Proof.
  intros Hin Hp. unfold still_pending. cbn [pending_futures with_pending].
  apply filter_filter_lt with (a := f); [exact Hin | exact Hp|].
  cbn. unfold future_eqb. now rewrite Nat.eqb_refl.
Qed.

Lemma armed_counts (k : future_kind) (s : state) :
  pending_dequeues (armed k s)
  = pending_dequeues s + (match k with Dequeue => 1 | Receive => 0 end)
  /\ pending_receives (armed k s)
     = pending_receives s + (match k with Dequeue => 0 | Receive => 1 end)
  /\ work_request_map (armed k s) = work_request_map s.
Proof.
  unfold pending_dequeues, pending_receives, armed.
  cbn [pending_futures with_pending with_next_future work_request_map].
  rewrite !filter_app, !length_app. destruct k; cbn; repeat split; lia.
Qed.

Lemma within_capacity_shrink (worker_config : WorkerConfig) (s s' : state) :
  within_capacity worker_config s ->
  pending_dequeues s' <= pending_dequeues s ->
  pending_receives s' <= pending_receives s ->
  Dict.len (work_request_map s') <= Dict.len (work_request_map s) ->
  within_capacity worker_config s'.
Proof.
  unfold within_capacity. intros (Hd & Hr & Hgate & Hbound) Hd' Hr' Hlen.
  repeat split; lia.
Qed.

Section OneCompletion.

Variable env : environment.
Variable worker_id : string.
Variable worker_config : WorkerConfig.

Lemma main_loop_single (c : cycle) (s : state) :
  snd (main_loop env worker_id worker_config [c] s)
  = if client_disconnected c then s
    else match waited c with
         | WaitRaised _ => s
         | WaitDone done =>
             snd ((for_done env worker_id worker_config done ;;
                   match done with
                   | [] => ext env SendPing ;; ret tt
                   | _ :: _ => ret tt
                   end) (still_pending done s))
         end.
Proof.
  destruct (client_disconnected c) eqn:Hconn.
  - cbn [main_loop]. now rewrite Hconn.
  - destruct (waited c) as [e|done] eqn:Hwait.
    + cbn [main_loop]. now rewrite Hconn, Hwait.
    + erewrite main_loop_turn by eassumption.
      unfold bind.
      destruct (for_done env worker_id worker_config done
                  (still_pending done s)) as [[u|e|] s1]; [|reflexivity..].
      destruct done; [|reflexivity].
      unfold ext. now destruct (env (trace s1) SendPing).
Qed.

Lemma process_not_suspended (x : completion) (s : state) :
  fst (process env worker_id worker_config x s) <> Suspended.
Proof.
  destruct x as [e| |q m|response]; cbn [process].
  - discriminate.
  - discriminate.
  - destruct (keeps_futures_initiate env worker_id m s) as (_ & _ & Hsus).
    unfold dispatch, try_finally, bind.
    destruct (initiate_work_for_message env worker_id m s)
      as [[wr|e|] s0]; cbn [fst] in *; [| |congruence];
      cbn [modify]; rewrite add_dequeue_state; discriminate.
  - destruct (keeps_futures_route env worker_id response s) as (_ & _ & Hsus).
    unfold receive, try_finally.
    destruct (route env worker_id response s) as [[u|e|] s1];
      cbn [fst] in *; [| |congruence];
      unfold bind, get_state, _add_receive;
      (destruct (Nat.eqb _ 0); [rewrite add_dequeue_state|]); discriminate.
Qed.

Lemma for_done_not_suspended (done : list (future * completion))
    (s : state) :
  fst (for_done env worker_id worker_config done s) <> Suspended.
Proof.
  revert s. induction done as [|[f x] rest IH]; intros s; cbn [for_done].
  - discriminate.
  - unfold bind. pose proof (process_not_suspended x s) as Hx.
    destruct (process env worker_id worker_config x s) as [[u|e|] s1];
      cbn [fst] in *; [apply IH | discriminate | congruence].
Qed.

Lemma main_loop_cons (c : cycle) (rest : list cycle) (s : state) :
  main_loop env worker_id worker_config (c :: rest) s
  = match main_loop env worker_id worker_config [c] s with
    | (Suspended, s') => main_loop env worker_id worker_config rest s'
    | other => other
    end.
Proof.
  destruct (client_disconnected c) eqn:Hconn.
  - cbn [main_loop]. now rewrite Hconn.
  - destruct (waited c) as [e|done] eqn:Hwait.
    + cbn [main_loop]. now rewrite Hconn, Hwait.
    + rewrite (@main_loop_turn env worker_id worker_config c rest done s
                 Hconn Hwait).
      rewrite (@main_loop_turn env worker_id worker_config c [] done s
                 Hconn Hwait).
      unfold bind.
      pose proof (for_done_not_suspended done (still_pending done s)) as Hsus.
      destruct (for_done env worker_id worker_config done
                  (still_pending done s)) as [[u|e|] s2];
        cbn [fst] in *; [|reflexivity | congruence].
      destruct done; [|reflexivity].
      unfold ext. now destruct (env (trace s2) SendPing).
Qed.

(** One turn with one completion keeps the connection within capacity. *)
Lemma turn_within_capacity (c : cycle) (s : state) :
  within_capacity worker_config s ->
  one_completion s c ->
  within_capacity worker_config
    (snd (main_loop env worker_id worker_config [c] s)).
Proof.
  intros Hin Hone. rewrite main_loop_single.
  destruct (client_disconnected c); [exact Hin|].
  unfold one_completion in Hone.
  destruct (waited c) as [e|done]; [exact Hin|].
  destruct (still_pending_counts done s) as (Hd & Hr & Hmap).
  destruct done as [|[f x] [|]]; [| |destruct Hone].
  - (* timeout *)
    cbn [for_done]. unfold bind, ret, ext.
    destruct (env _ SendPing); cbn [snd];
      apply within_capacity_shrink with (s := s); auto;
      cbn [work_request_map with_trace]; rewrite ?Hmap; lia.
  - destruct Hone as [Hf Hkind].
    assert (Hstate :
      snd ((for_done env worker_id worker_config [(f, x)] ;; ret tt)
             (still_pending [(f, x)] s))
      = snd (process env worker_id worker_config x
               (still_pending [(f, x)] s))).
    { cbn [for_done]. unfold bind, ret.
      now destruct (process env worker_id worker_config x _) as [[u|e|] s1]. }
    rewrite Hstate. clear Hstate.
    pose proof (fun p => still_pending_drops f x s p Hf) as Hdrops.
    remember (still_pending [(f, x)] s) as s' eqn:Hs'. clear Hs'.
    destruct Hin as (Hdeq & Hrec & Hgate & Hbound).
    destruct x as [e| |q m|response]; cbn [process].
    + cbn [raise snd].
      apply within_capacity_shrink with (s := s);
        [repeat split; assumption | exact Hd | exact Hr | rewrite Hmap; lia].
    + unfold bind, log, modify, raise. cbn [snd].
      apply within_capacity_shrink with (s := s);
        [repeat split; assumption | exact Hd | exact Hr|].
      cbn [work_request_map with_trace]. rewrite Hmap. lia.
    + (* a dequeued message *)
      pose proof (Hdrops is_dequeue Hkind) as Hdrop.
      fold (pending_dequeues s') in Hdrop. fold (pending_dequeues s) in Hdrop.
      assert (Hone : pending_dequeues s = 1) by lia.
      specialize (Hgate Hone).
      destruct (dispatch_state env worker_id worker_config m s')
        as (s1 & Hp1 & Hlen1 & ->).
      assert (Hd1 : pending_dequeues s1 = 0).
      { unfold pending_dequeues. rewrite Hp1.
        fold (pending_dequeues s'). lia. }
      assert (Hr1 : pending_receives s1 <= 1).
      { unfold pending_receives. rewrite Hp1.
        fold (pending_receives s'). lia. }
      rewrite Hmap in Hlen1.
      destruct (Z.ltb_spec (Z.of_nat (Dict.len (work_request_map s1)))
                  (max_parallel_requests worker_config)) as [Hlt|Hge].
      * destruct (armed_counts Dequeue s1) as (Ha & Hb & Hc).
        unfold within_capacity. rewrite Ha, Hb, Hc.
        repeat split; lia.
      * unfold within_capacity. repeat split; lia.
    + (* a worker response *)
      assert (Hnot : (fun g => negb (is_dequeue g)) f = true)
        by (cbn; now rewrite Hkind).
      pose proof (Hdrops (fun g => negb (is_dequeue g)) Hnot) as Hdrop.
      fold (pending_receives s') in Hdrop. fold (pending_receives s) in Hdrop.
      destruct (receive_state env worker_id worker_config response s')
        as (s1 & Hp1 & Hlen1 & ->).
      assert (Hd1 : pending_dequeues s1 = pending_dequeues s').
      { unfold pending_dequeues. now rewrite Hp1. }
      assert (Hr1 : pending_receives s1 = 0).
      { unfold pending_receives. rewrite Hp1.
        fold (pending_receives s'). lia. }
      rewrite Hmap in Hlen1.
      destruct (Nat.eqb_spec (length (pending_futures s')) 0) as [Hempty|_].
      * assert (Hzero : pending_dequeues s' = 0).
        { unfold pending_dequeues.
          destruct (pending_futures s'); [reflexivity | discriminate]. }
        destruct (Z.ltb_spec (Z.of_nat (Dict.len (work_request_map s1)))
                    (max_parallel_requests worker_config)) as [Hlt|Hge].
        -- destruct (armed_counts Receive (armed Dequeue s1))
             as (Ha & Hb & Hc).
           destruct (armed_counts Dequeue s1) as (Ha' & Hb' & Hc').
           unfold within_capacity. rewrite Ha, Hb, Hc, Ha', Hb', Hc'.
           repeat split; lia.
        -- destruct (armed_counts Receive s1) as (Ha & Hb & Hc).
           unfold within_capacity. rewrite Ha, Hb, Hc.
           repeat split; lia.
      * destruct (armed_counts Receive s1) as (Ha & Hb & Hc).
        unfold within_capacity. rewrite Ha, Hb, Hc.
        repeat split; lia.
Qed.

Lemma run_within_capacity (script : list cycle) (s : state) :
  within_capacity worker_config s ->
  one_completion_per_wait env worker_id worker_config script s ->
  within_capacity worker_config
    (snd (main_loop env worker_id worker_config script s)).
Proof.
  revert s. induction script as [|c rest IH]; intros s Hin Hone.
  - exact Hin.
  - destruct Hone as [Hc Hrest].
    pose proof (@turn_within_capacity c s Hin Hc) as Hturn.
    rewrite main_loop_cons.
    destruct (main_loop env worker_id worker_config [c] s)
      as [[u|e|] s1]; cbn [snd] in *; [exact Hturn | exact Hturn|].
    now apply IH.
Qed.

End OneCompletion.

Lemma existsb_counted {A} (p : A -> bool) (l : list A) :
  existsb p l = true -> 1 <= length (filter p l).
Proof.
  induction l as [|a l IH]; cbn; [discriminate|].
  destruct (p a); cbn; [lia | exact IH].
Qed.

Lemma quiet_within_capacity (worker_config : WorkerConfig) (s : state) :
  pending_futures s = [] ->
  work_request_map s = [] ->
  within_capacity worker_config s
  /\ within_capacity worker_config
       (armed Receive
          (if (Z.of_nat (Dict.len (work_request_map s))
               <? max_parallel_requests worker_config)%Z
           then armed Dequeue s else s)).
Proof.
  intros Hp Hm.
  assert (Hquiet : within_capacity worker_config s).
  { unfold within_capacity, pending_dequeues, pending_receives.
    rewrite Hp, Hm. cbn. repeat split; lia. }
  split; [exact Hquiet|].
  destruct Hquiet as (Hd & Hr & Hgate & Hbound).
  assert (Hd0 : pending_dequeues s = 0)
    by (unfold pending_dequeues; now rewrite Hp).
  assert (Hr0 : pending_receives s = 0)
    by (unfold pending_receives; now rewrite Hp).
  destruct (Z.ltb_spec (Z.of_nat (Dict.len (work_request_map s)))
              (max_parallel_requests worker_config)) as [Hlt|Hge].
  - destruct (armed_counts Receive (armed Dequeue s)) as (Ha & Hb & Hc).
    destruct (armed_counts Dequeue s) as (Ha' & Hb' & Hc').
    unfold within_capacity. rewrite Ha, Hb, Hc, Ha', Hb', Hc'.
    repeat split; lia.
  - destruct (armed_counts Receive s) as (Ha & Hb & Hc).
    unfold within_capacity. rewrite Ha, Hb, Hc.
    repeat split; lia.
Qed.

Lemma startup_within_capacity (env : environment) (worker_id : string)
    (worker_config : WorkerConfig) :
  within_capacity worker_config
    (snd (startup env worker_id worker_config initial_state)).
Proof.
  unfold startup, bind, get_state, ext, _add_receive.
  cbn [trace initial_state with_trace worker_session].
  env_cases env; cbn [snd]; rewrite ?add_dequeue_state; cbn [snd].
  - now apply quiet_within_capacity.
  - now apply quiet_within_capacity.
  - match goal with
    | |- within_capacity _ (snd (add_future Receive ?s0)) =>
        change (snd (add_future Receive s0)) with (armed Receive s0)
    end.
    now apply quiet_within_capacity.
Qed.

(** The [except] and [finally] clauses only add to the trace. *)
Lemma guarded_state (env : environment) (worker_id : string)
    (body : M unit) (s0 : state) :
  exists t, snd (guarded env worker_id body s0) = with_trace t (snd (body s0)).
Proof.
  destruct (body s0) as [[u|e|] s] eqn:Hbody; cbn [snd].
  - unfold guarded, try_finally, try_except. rewrite Hbody.
    destruct (cleans_cleanup env worker_id s)
      as (r & d & Hrun & _ & _ & Hsus & _).
    unfold emits in Hrun. rewrite Hrun.
    exists (trace s ++ d). destruct r as [[]|x|]; [| |congruence]; reflexivity.
  - destruct (guarded_after_exception env worker_id body s0 Hbody)
      as (r & rec & fin & Hrun & _).
    rewrite Hrun. now eexists.
  - unfold guarded, try_finally, try_except. rewrite Hbody.
    exists (trace s). now rewrite with_trace_same.
Qed.

(** X9.  If every wait of the loop is cancelled, times out, or returns a
    single future that was pending (a dequeue giving a dequeued message,
    a receive giving a worker response), then at the point the script
    leads to a dequeue is pending only if the ledger holds fewer than
    [max_parallel_requests] entries, the ledger never holds more than
    [max_parallel_requests] entries, and at most one dequeue and at most
    one receive are pending. *)
Theorem one_completion_per_wait_keeps_capacity
    (env : environment) (worker_id : string) (worker_config : WorkerConfig)
    (script : list cycle) :
  one_completion_per_wait env worker_id worker_config script
    (snd (startup env worker_id worker_config initial_state)) ->
  let s := snd (handle_worker env worker_id worker_config script
                  initial_state) in
  capacity_invariant worker_config s
  /\ (Z.of_nat (Dict.len (work_request_map s))
      <= Z.max 0 (max_parallel_requests worker_config))%Z
  /\ pending_dequeues s <= 1
  /\ pending_receives s <= 1.
Proof.
  intros Hone. cbv zeta.
  assert (Hwithin :
    within_capacity worker_config
      (snd (handle_worker env worker_id worker_config script initial_state))).
  { unfold handle_worker.
    destruct (guarded_state env worker_id
                (connection env worker_id worker_config script) initial_state)
      as [t ->].
    assert (Hbody :
      within_capacity worker_config
        (snd (connection env worker_id worker_config script initial_state))).
    { pose proof (startup_within_capacity env worker_id worker_config)
        as Hstart.
      unfold connection, bind.
      destruct (startup env worker_id worker_config initial_state)
        as [[u|e|] s1]; cbn [snd] in *; [|exact Hstart..].
      now apply run_within_capacity. }
    exact Hbody. }
  destruct Hwithin as (Hd & Hr & Hgate & Hbound).
  split; [|auto].
  intros Hex. apply existsb_counted in Hex.
  fold (pending_dequeues
          (snd (handle_worker env worker_id worker_config script
                  initial_state))) in Hex.
  apply Hgate. lia.
Qed.

Lemma one_completion_per_wait_keeps_capacity_witness :
  let s := snd (handle_worker env_ok "worker" one_at_a_time a_whole_request
                  initial_state) in
  one_completion_per_wait env_ok "worker" one_at_a_time a_whole_request
    (snd (startup env_ok "worker" one_at_a_time initial_state))
  /\ capacity_invariant one_at_a_time s
  /\ (Z.of_nat (Dict.len (work_request_map s))
      <= Z.max 0 (max_parallel_requests one_at_a_time))%Z
  /\ pending_dequeues s <= 1
  /\ pending_receives s <= 1.
Proof.
  cbv zeta.
  assert (Hone :
    one_completion_per_wait env_ok "worker" one_at_a_time a_whole_request
      (snd (startup env_ok "worker" one_at_a_time initial_state))).
  { vm_compute. tauto. }
  split; [exact Hone|].
  exact (@one_completion_per_wait_keeps_capacity env_ok "worker"
           one_at_a_time a_whole_request Hone).
Defined.

(** ** A wait that times out *)

Lemma filter_all {A} (l : list A) : filter (fun _ => true) l = l.
Proof. induction l as [|a l IH]; cbn; [reflexivity | now rewrite IH]. Qed.

Lemma still_pending_nothing (s : state) : still_pending [] s = s.
Proof.
  unfold still_pending. cbn [map existsb negb].
  rewrite filter_all. now destruct s.
Qed.

(** X10.  When a wait times out with no future done, the loop sends one
    ping and nothing else: the pending futures, the ledger and the
    session are as they were, and the loop goes on with its next turn.
    If the ping raises, the loop ends with that exception. *)
Theorem timeout_sends_one_ping
    (env : environment) (worker_id : string) (worker_config : WorkerConfig)
    (c : cycle) (rest : list cycle) (s : state) :
  client_disconnected c = false ->
  waited c = WaitDone [] ->
  let answer := env (trace s) SendPing in
  let s1 := with_trace (trace s ++ [Called SendPing answer]) s in
  main_loop env worker_id worker_config (c :: rest) s
  = match answer with
    | Return _ => main_loop env worker_id worker_config rest s1
    | Raise e => (Exc e, s1)
    end.
Proof.
  intros Hconn Hwait. cbv zeta.
  rewrite (@main_loop_turn env worker_id worker_config c rest [] s
             Hconn Hwait).
  rewrite still_pending_nothing. cbn [for_done]. unfold bind, ret, ext.
  now destruct (env (trace s) SendPing).
Qed.

Lemma timeout_sends_one_ping_witness :
  main_loop env_ok "worker" one_at_a_time [completes []] one_in_flight
  = (Suspended,
     with_trace (trace one_in_flight ++ [Called SendPing (Return "")])
       one_in_flight).
Proof.
  exact (@timeout_sends_one_ping env_ok "worker" one_at_a_time
           (completes []) [] one_in_flight eq_refl eq_refl).
Defined.

(** ** The life of one request *)

Section Life.

Variable env : environment.
Variable worker_id : string.
Variable worker_config : WorkerConfig.
Hypothesis Hnever : never_raises env.

Lemma ext_returns (c : call) (s : state) :
  exists v,
    ext env c s = (Val v, with_trace (trace s ++ [Called c (Return v)]) s).
Proof.
  destruct (Hnever (trace s) c) as [v Hv]. exists v.
  unfold ext. now rewrite Hv.
Qed.

Lemma token_step (t : WorkerResponse) (s : state)
    (d : WorkRequestContainerMap) (r : string) (c : WorkRequestContainer) :
  work_request_map s = d ++ [(r, c)] ->
  ~ In r (Dict.keys d) ->
  response_type t = "token" ->
  request_id t = Some r ->
  exists s' v,
    process env worker_id worker_config (ResultResponse t) s = (Val tt, s')
    /\ work_request_map s' = d ++ [(r, counted c)]
    /\ trace s' =
         trace s ++ [Called (MessageQueueEnqueue (message_id c)
                               (TokenPacket (raw t))) (Return v)].
Proof.
  intros Hmap Hfresh Hkind Hrid.
  destruct (ext_returns (MessageQueueEnqueue (message_id c)
                           (TokenPacket (raw t))) s) as [v Hv].
  assert (Hroute :
    route env worker_id t s
    = (Val tt,
       with_map (d ++ [(r, counted c)])
         (with_trace (trace s ++ [Called (MessageQueueEnqueue (message_id c)
                                            (TokenPacket (raw t))) (Return v)])
            s))).
  { unfold route. rewrite Hkind. cbn [String.eqb Ascii.eqb Bool.eqb].
    unfold handle_token_response, bind, lookup, get_work_request_container.
    rewrite Hrid, Hmap, Dict_get_last by exact Hfresh. rewrite Hv.
    unfold increment_num_responses, modify.
    cbn [work_request_map with_trace]. rewrite Hmap.
    fold (counted c). now rewrite Dict_set_last by exact Hfresh. }
  pose proof (receive_passes_on env worker_id worker_config t s) as Hrec.
  cbv zeta in Hrec. rewrite Hroute in Hrec. cbn [fst snd] in Hrec.
  destruct Hrec as (Hres & Hmap' & Htrace).
  cbn [process].
  destruct (receive env worker_id worker_config t s) as [res s'].
  cbn [fst snd] in *. subst res. exists s', v. auto.
Qed.

Lemma tokens_run (tokens : list (future * WorkerResponse)) :
  forall (s : state) (d : WorkRequestContainerMap) (r : string)
         (c : WorkRequestContainer),
    work_request_map s = d ++ [(r, c)] ->
    ~ In r (Dict.keys d) ->
    (forall fr, In fr tokens ->
       response_type (snd fr) = "token" /\ request_id (snd fr) = Some r) ->
    exists s' delta,
      for_done env worker_id worker_config (received tokens) s = (Val tt, s')
      /\ work_request_map s' =
           d ++ [(r, {| work_request := work_request c;
                        message_id := message_id c;
                        num_responses := num_responses c + length tokens |})]
      /\ trace s' = trace s ++ delta
      /\ attempted delta = map (forwarded (message_id c)) tokens
      /\ returned delta = map (forwarded (message_id c)) tokens.
Proof.
  induction tokens as [|[f t] rest IH]; intros s d r c Hmap Hfresh Hall.
  - exists s, []. cbn. rewrite Nat.add_0_r, app_nil_r.
    repeat split. rewrite Hmap. now destruct c.
  - destruct (Hall (f, t) (or_introl eq_refl)) as [Hkind Hrid].
    destruct (@token_step t s d r c Hmap Hfresh Hkind Hrid)
      as (s1 & v & Hrun1 & Hmap1 & Htr1).
    destruct (IH s1 d r (counted c) Hmap1 Hfresh) as
      (s' & delta & Hrun & Hmap' & Htr & Hatt & Hret).
    { intros fr Hfr. apply Hall. now right. }
    exists s', (Called (forwarded (message_id c) (f, t)) (Return v) :: delta).
    cbn [received map for_done fst snd]. unfold bind. rewrite Hrun1.
    split; [exact Hrun|]. split.
    + rewrite Hmap'. cbn [counted work_request message_id num_responses
                           length].
      now rewrite Nat.add_succ_r.
    + split; [rewrite Htr, Htr1, <- app_assoc; reflexivity|].
      cbn [attempted returned flat_map app] in *.
      fold (attempted delta). fold (returned delta).
      rewrite Hatt, Hret. split; reflexivity.
Qed.

Lemma final_step (final : WorkerResponse) (s : state)
    (d : WorkRequestContainerMap) (r : string) (c : WorkRequestContainer) :
  work_request_map s = d ++ [(r, c)] ->
  ~ In r (Dict.keys d) ->
  response_type final = "generated_text" ->
  request_id final = Some r ->
  exists s' message delta,
    process env worker_id worker_config (ResultResponse final) s
    = (Val tt, s')
    /\ work_request_map s' = d
    /\ trace s' = trace s ++ delta
    /\ attempted delta =
         [CompleteWork (message_id c) (text final);
          MessageQueueEnqueue (message_id c) (FinishedPacket message);
          StoreWorkerSession worker_id
            {| requests_in_flight := Dict.len d;
               metrics := Some (response_metrics final) |}]
    /\ returned delta = attempted delta.
Proof.
  intros Hmap Hfresh Hkind Hrid.
  destruct (ext_returns (CompleteWork (message_id c) (text final)) s)
    as [message Hcomplete].
  destruct (ext_returns
              (MessageQueueEnqueue (message_id c) (FinishedPacket message))
              (with_trace (trace s ++ [Called (CompleteWork (message_id c)
                                                 (text final))
                                         (Return message)]) s))
    as [v Hnotify].
  set (s2 := with_map d
               (with_trace
                  ((trace s ++ [Called (CompleteWork (message_id c)
                                          (text final)) (Return message)])
                   ++ [Called (MessageQueueEnqueue (message_id c)
                                 (FinishedPacket message)) (Return v)]) s)).
  set (report := {| requests_in_flight := Dict.len d;
                    metrics := Some (response_metrics final) |}).
  destruct (ext_returns (StoreWorkerSession worker_id report)
              (with_session report s2)) as [v' Hstore].
  assert (Hroute :
    route env worker_id final s
    = (Val tt,
       with_trace (trace s2 ++ [Called (StoreWorkerSession worker_id report)
                                  (Return v')])
         (with_session report s2))).
  { unfold route. rewrite Hkind. cbn [String.eqb Ascii.eqb Bool.eqb].
    unfold handle_generated_text_response, bind at 1 2 3 4, lookup,
      get_work_request_container.
    rewrite Hrid, Hmap, Dict_get_last by exact Hfresh.
    rewrite Hcomplete, Hnotify.
    unfold del_entry. cbn [work_request_map with_trace].
    rewrite Hmap, Dict_del_last by exact Hfresh.
    fold s2. unfold _update_session, bind, get_state, modify.
    fold report. cbn [work_request_map s2 with_map].
    change {| requests_in_flight := Dict.len d;
              metrics := Some (response_metrics final) |} with report.
    match goal with
    | |- context [ext env _ ?st] =>
        change st with (with_session report s2)
    end.
    rewrite Hstore. reflexivity. }
  pose proof (receive_passes_on env worker_id worker_config final s) as Hrec.
  cbv zeta in Hrec. rewrite Hroute in Hrec. cbn [fst snd] in Hrec.
  destruct Hrec as (Hres & Hmap' & Htrace).
  cbn [process].
  destruct (receive env worker_id worker_config final s) as [res s'].
  cbn [fst snd] in *. subst res.
  exists s', message, [Called (CompleteWork (message_id c) (text final))
                         (Return message);
                       Called (MessageQueueEnqueue (message_id c)
                                 (FinishedPacket message)) (Return v);
                       Called (StoreWorkerSession worker_id report)
                         (Return v')].
  split; [reflexivity|]. split; [exact Hmap'|].
  split; [|split; reflexivity].
  rewrite Htrace. subst s2. cbn [trace with_trace with_map with_session].
  now rewrite <- !app_assoc.
Qed.

End Life.

Lemma received_app (a b : list (future * WorkerResponse)) :
  received (a ++ b) = received a ++ received b.
Proof. apply map_app. Qed.

(** X11.  With collaborators that do not raise and build request ids
    that are not keys of the ledger: the dispatch of a dequeued message
    appends one entry to the ledger; any number of [token] responses for
    that request are forwarded in order and counted, so that the entry's
    [num_responses] is their number; and the [generated_text] response
    that follows completes the message, notifies the output channel,
    deletes the entry and reports the session, leaving the ledger exactly
    as it was before the dispatch.  Nothing else is called: no work is
    reset, aborted or re-enqueued. *)
Theorem request_round_trip
    (env : environment) (worker_id : string) (worker_config : WorkerConfig)
    (dequeued_id : string) (s : state) :
  never_raises env ->
  (forall tr m v,
      env tr (BuildWorkRequest m) = Return v ->
      ~ In v (Dict.keys (work_request_map s))) ->
  exists work_request s1,
    dispatch env worker_id worker_config dequeued_id s = (Val tt, s1)
    /\ work_request_map s1 =
         work_request_map s
         ++ [(id work_request, fresh_entry work_request dequeued_id)]
    /\ forall tokens final,
         (forall fr, In fr tokens ->
            response_type (snd fr) = "token"
            /\ request_id (snd fr) = Some (id work_request)) ->
         response_type (snd final) = "generated_text" ->
         request_id (snd final) = Some (id work_request) ->
         exists s2 s3 message delta,
           for_done env worker_id worker_config (received tokens) s1
           = (Val tt, s2)
           /\ Dict.get (id work_request) (work_request_map s2) =
                Some {| work_request := work_request;
                        message_id := dequeued_id;
                        num_responses := length tokens |}
           /\ for_done env worker_id worker_config
                (received (tokens ++ [final])) s1
              = (Val tt, s3)
           /\ work_request_map s3 = work_request_map s
           /\ trace s3 = trace s1 ++ delta
           /\ attempted delta =
                map (forwarded dequeued_id) tokens
                ++ [CompleteWork dequeued_id (text (snd final));
                    MessageQueueEnqueue dequeued_id (FinishedPacket message);
                    StoreWorkerSession worker_id
                      (session_report (response_metrics (snd final)) s)]
           /\ returned delta = attempted delta.
Proof.
  intros Hnever Hfresh.
  (* the dispatch *)
  destruct (Hnever (trace s) (StartWork dequeued_id worker_id))
    as [message0 Hstart].
  destruct (Hnever (trace s ++ [Called (StartWork dequeued_id worker_id)
                                  (Return message0)])
              (BuildWorkRequest message0)) as [r Hbuild].
  destruct (Hnever ((trace s ++ [Called (StartWork dequeued_id worker_id)
                                   (Return message0)])
                    ++ [Called (BuildWorkRequest message0) (Return r)])
              (SendWorkRequest {| id := r |})) as [v Hsend].
  pose proof (Hfresh _ _ _ Hbuild) as Hnew.
  destruct (dispatch_of_initiate env worker_id worker_config dequeued_id s)
    as (_ & _ & Hval).
  assert (Hinner :
    exists s0,
      initiate_work_for_message env worker_id dequeued_id s
      = (Val {| id := r |}, s0)
      /\ work_request_map s0 = work_request_map s).
  { unfold initiate_work_for_message, try_except, bind, ext.
    rewrite Hstart. cbn [trace with_trace]. rewrite Hbuild.
    cbn [trace with_trace]. rewrite Hsend. eexists. split; reflexivity. }
  destruct Hinner as (s0 & Hinner & Hmap0).
  rewrite Hinner in Hval. destruct (Hval _ eq_refl) as [Hres Hset].
  cbn [fst snd] in Hset. rewrite Hmap0 in Hset.
  rewrite Dict_set_absent in Hset by exact Hnew.
  destruct (dispatch env worker_id worker_config dequeued_id s)
    as [res s1] eqn:Hdispatch.
  cbn [fst snd] in *. subst res.
  exists {| id := r |}, s1. split; [reflexivity|].
  split; [exact Hset|].
  (* the responses *)
  intros tokens final Htokens Hkind Hrid.
  destruct (@tokens_run env worker_id worker_config Hnever tokens s1
              (work_request_map s) r
              (fresh_entry {| id := r |} dequeued_id) Hset Hnew Htokens)
    as (s2 & d1 & Hrun2 & Hmap2 & Htr2 & Hatt2 & Hret2).
  cbn [fresh_entry work_request message_id num_responses Nat.add]
    in Hmap2.
  destruct (@final_step env worker_id worker_config Hnever (snd final) s2
              (work_request_map s) r _ Hmap2 Hnew Hkind Hrid)
    as (s3 & message & d2 & Hrun3 & Hmap3 & Htr3 & Hatt3 & Hret3).
  exists s2, s3, message, (d1 ++ d2).
  split; [exact Hrun2|]. split.
  { rewrite Hmap2. now apply Dict_get_last. }
  split.
  { rewrite received_app, for_done_app. unfold bind. rewrite Hrun2.
    destruct final as [f final]. cbn [received map for_done fst snd] in *.
    unfold bind. now rewrite Hrun3. }
  split; [exact Hmap3|].
  split; [rewrite Htr3, Htr2; now rewrite app_assoc|].
  rewrite attempted_app, returned_app, Hatt2, Hret2, Hret3, Hatt3.
  split; reflexivity.
Qed.

Lemma request_round_trip_witness :
  let exchange :=
    received [(first_receive, token_for_A);
              ({| fid := 2; fkind := Receive |}, token_for_A);
              ({| fid := 3; fkind := Receive |}, generated_text_for_A)] in
  exists s3,
    for_done env_ok "worker" one_at_a_time exchange
      (snd (dispatch env_ok "worker" one_at_a_time "A" initial_state))
    = (Val tt, s3)
    /\ work_request_map s3 = work_request_map initial_state.
Proof.
  cbv zeta.
  destruct (@request_round_trip env_ok "worker" one_at_a_time "A"
              initial_state)
    as (wr & s1 & Hdispatch & Hmap & Hlife).
  - intros tr c. destruct c; now eexists.
  - intros tr m v _ [].
  - assert (Hs1 : s1 = snd (dispatch env_ok "worker" one_at_a_time "A"
                              initial_state)) by now rewrite Hdispatch.
    assert (Hid : id wr = "req-A").
    { rewrite Hs1 in Hmap. cbn in Hmap. now injection Hmap as <- _. }
    destruct (Hlife [(first_receive, token_for_A);
                     ({| fid := 2; fkind := Receive |}, token_for_A)]
                ({| fid := 3; fkind := Receive |}, generated_text_for_A))
      as (s2 & s3 & message & delta & _ & _ & Hrun & Hback & _).
    + rewrite Hid. intros fr [<-|[<-|[]]]; split; reflexivity.
    + reflexivity.
    + now rewrite Hid.
    + exists s3. rewrite <- Hs1. split; [exact Hrun | exact Hback].
Defined.

(** ** The session report after a terminal response *)

(** X12.  For a [generated_text] or an [error] response, if the session
    record is stored at all then the handler has returned and the entry
    of the request is already deleted: the record counts the entries
    that remain, one fewer than before the response.  This is so also
    when storing the session raises; the router then raises with the
    entry gone, so the message stays completed or aborted. *)
Theorem terminal_response_reports_after_removal
    (env : environment) (worker_id : string) (response : WorkerResponse)
    (s : state) (report : WorkerSession) (a : answer) :
  response_type response = "generated_text"
  \/ response_type response = "error" ->
  let out := route env worker_id response s in
  In (Called (StoreWorkerSession worker_id report) a)
    (skipn (length (trace s)) (trace (snd out))) ->
  exists rid,
    request_id response = Some rid
    /\ Dict.del rid (work_request_map s) = Some (work_request_map (snd out))
    /\ report = session_report (response_metrics response) (snd out)
    /\ S (requests_in_flight report) = Dict.len (work_request_map s)
    /\ fst out = match a with
                 | Return _ => Val tt
                 | Raise e => Exc e
                 end.
Proof.
  intros Hkind. cbv zeta. unfold route, session_report.
  destruct Hkind as [-> | ->]; cbn [String.eqb Ascii.eqb Bool.eqb];
    unfold handle_generated_text_response, handle_error_response,
      _update_session, bind, log, modify, lookup,
      get_work_request_container, get_state, del_entry, ext;
    cbn [work_request_map with_trace trace];
    (destruct (request_id response) as [rid|];
     [destruct (Dict.get rid (work_request_map s)) as [c|] eqn:Hget|]);
    cbn [trace with_trace work_request_map];
    try (destruct (Dict_del_present _ _ Hget) as [d' Hdel];
         pose proof (Dict_len_del _ _ Hdel) as Hlen);
    env_cases env; cbn [work_request_map with_trace trace];
    try rewrite Hdel;
    cbn [fst snd trace with_trace with_session with_map work_request_map
         requests_in_flight];
    env_cases env; unfold ret;
    cbn [fst snd trace with_trace with_session with_map work_request_map
         requests_in_flight];
    rewrite <- ?app_assoc, ?skipn_past;
    try (rewrite <- (app_nil_r (trace s)) at 1; rewrite skipn_past);
    cbn [app]; intros Hin; try (rewrite skipn_all in Hin; contradiction);
    cbn in Hin;
    repeat (destruct Hin as [Hin|Hin]; [try discriminate Hin|]);
    try contradiction.
  all: injection Hin as <- <-; exists rid; repeat split; auto.
Qed.

Lemma terminal_response_reports_after_removal_witness :
  let out := route env_ok "worker" generated_text_for_A one_in_flight in
  let report := {| requests_in_flight := 0; metrics := Some "cpu=1" |} in
  In (Called (StoreWorkerSession "worker" report) (Return ""))
    (skipn (length (trace one_in_flight)) (trace (snd out)))
  /\ exists rid,
       request_id generated_text_for_A = Some rid
       /\ Dict.del rid (work_request_map one_in_flight)
          = Some (work_request_map (snd out))
       /\ report = session_report "cpu=1" (snd out)
       /\ S (requests_in_flight report)
          = Dict.len (work_request_map one_in_flight)
       /\ fst out = Val tt.
Proof.
  cbv zeta.
  assert (Hin :
    In (Called (StoreWorkerSession "worker"
                  {| requests_in_flight := 0; metrics := Some "cpu=1" |})
          (Return ""))
      (skipn (length (trace one_in_flight))
         (trace (snd (route env_ok "worker" generated_text_for_A
                        one_in_flight))))).
  { vm_compute. auto. }
  split; [exact Hin|].
  exact (@terminal_response_reports_after_removal env_ok "worker"
           generated_text_for_A one_in_flight _ _ (or_introl eq_refl) Hin).
Defined.

(** ** What the recovery pass may call *)

Lemma justified_weaken (e : exn) (cs cs' : list WorkRequestContainer)
    (before delta after : list event) (c : call) :
  incl cs cs' ->
  justified e cs delta c ->
  justified e cs' (before ++ delta ++ after) c.
Proof.
  intros Hincl. unfold incl in Hincl.
  destruct c; cbn [justified]; auto; intros H;
    repeat match goal with
           | H : _ /\ _ |- _ => destruct H
           | H : exists _, _ |- _ => destruct H
           end;
    repeat split; eauto 6;
    rewrite !returned_app, !in_app_iff; auto.
Qed.

Section Justified.

Variable env : environment.

Lemma recover_justified (container : WorkRequestContainer)
    (bound : option exn) (e : exn) (s : state) :
  (forall e0, bound = Some e0 -> e0 = e) ->
  exists r delta,
    emits (recover env container bound) s r delta
    /\ (forall e', r = Val e' -> e' = bound \/ e' = None)
    /\ (forall c, In c (attempted delta) ->
        justified e [container] delta c).
Proof.
  intros Hbound.
  unfold emits, recover, try_except, bind, log, modify, ext, ret, raise.
  destruct (Nat.eqb_spec (num_responses container) 0) as [Hzero|Hzero];
    [|destruct bound as [e0|]; [rewrite (Hbound e0 eq_refl)|]];
    cbn [trace with_trace is_Exception]; env_cases env;
    (eexists _, _; split; [emitted|]); cbn [attempted flat_map app].
  all: split; [intros e' He'; first [discriminate He'
                                    | injection He' as <-; auto]|].
  all: intros c Hc; repeat (destruct Hc as [<-|Hc]; [|]); try destruct Hc;
    cbn [justified returned flat_map app In];
    repeat split; eauto 8 using in_eq.
Qed.

Lemma recover_all_justified (containers : list WorkRequestContainer)
    (bound : option exn) (e : exn) (s : state) :
  (forall e0, bound = Some e0 -> e0 = e) ->
  exists r delta,
    emits (recover_all env containers bound) s r delta
    /\ (forall c, In c (attempted delta) ->
        justified e containers delta c).
Proof.
  revert bound s.
  induction containers as [|container rest IH]; intros bound s Hbound.
  - exists (Val tt), []. split; [now apply emits_nothing | intros c []].
  - destruct (recover_justified container s Hbound)
      as (r1 & d1 & Hrun1 & Hres1 & Hcalls1).
    destruct r1 as [e'|x|].
    + assert (Hbound' : forall e0, e' = Some e0 -> e0 = e).
      { destruct (Hres1 e' eq_refl) as [-> | ->];
          [exact Hbound | discriminate]. }
      destruct (IH e' (with_trace (trace s ++ d1) s) Hbound')
        as (r2 & d2 & Hrun2 & Hcalls2).
      exists r2, (d1 ++ d2). split.
      * cbn [recover_all]. eapply emits_bind; eassumption.
      * intros c. rewrite attempted_app, in_app_iff. intros [H|H].
        -- apply (@justified_weaken e [container] (container :: rest)
                    [] d1 d2 c).
           ++ intros y [<-|[]]. apply in_eq.
           ++ now apply Hcalls1.
        -- rewrite <- (app_nil_r (d1 ++ d2)), <- app_assoc.
           apply (@justified_weaken e rest (container :: rest) d1 d2 [] c).
           ++ apply incl_tl, incl_refl.
           ++ now apply Hcalls2.
    + exists (Exc x), d1. split.
      * cbn [recover_all]. now apply emits_bind_stop.
      * intros c H.
        rewrite <- (app_nil_r d1).
        apply (@justified_weaken e [container] (container :: rest)
                 [] d1 [] c).
        -- intros y [<-|[]]. apply in_eq.
        -- now apply Hcalls1.
    + exists Suspended, d1. split.
      * cbn [recover_all]. unfold emits, bind in *. now rewrite Hrun1.
      * intros c H.
        rewrite <- (app_nil_r d1).
        apply (@justified_weaken e [container] (container :: rest)
                 [] d1 [] c).
        -- intros y [<-|[]]. apply in_eq.
        -- now apply Hcalls1.
Qed.

End Justified.

(** X13.  Every call of the recovery pass is justified by an entry of
    the ledger: [reset_work] is called only for the message of an entry
    without responses, the message is put back on the work queue only
    after its [reset_work] returned, and [abort_work] is called only for
    the message of an entry with responses, with the text of the
    terminating error as its reason.  A message that is not in the
    ledger is never touched, whatever the calls answer. *)
Theorem recovery_calls_are_justified
    (env : environment) (e : exn) (s : state) :
  exists r delta,
    recovery_handler env e s = (r, with_trace (trace s ++ delta) s)
    /\ forall c, In c (attempted delta) ->
         justified e (Dict.values (work_request_map s)) delta c.
Proof.
  destruct (@recover_all_justified env (Dict.values (work_request_map s))
              (Some e) e
              (with_trace (trace s ++ [Logged (LogHandlerError (str e))]) s))
    as (r & d & Hrun & Hcalls).
  { now intros e0 [= <-]. }
  exists r, (Logged (LogHandlerError (str e)) :: d). split.
  - unfold recovery_handler.
    change (Logged (LogHandlerError (str e)) :: d)
      with ([Logged (LogHandlerError (str e))] ++ d).
    eapply emits_bind with (a := tt); [reflexivity|].
    unfold emits, bind, get_state in *.
    cbn [work_request_map with_trace] in *.
    exact Hrun.
  - intros c Hc. cbn [attempted flat_map app] in Hc.
    change (Logged (LogHandlerError (str e)) :: d)
      with ([Logged (LogHandlerError (str e))] ++ d).
    rewrite <- (app_nil_r d).
    apply (@justified_weaken e _ _ [Logged (LogHandlerError (str e))] d []
             c (incl_refl _)).
    now apply Hcalls.
Qed.

(** ** A connection that fails to start *)

Lemma startup_raises (env : environment) (worker_id : string)
    (worker_config : WorkerConfig) (s : state) (e : exn) :
  fst (startup env worker_id worker_config s) = Exc e ->
  exists delta c,
    startup env worker_id worker_config s
    = (Exc e, with_trace (trace s ++ delta) s)
    /\ env (trace s ++ removelast delta) c = Raise e.
Proof.
  unfold startup, bind, ext, get_state, _add_dequeue, _add_receive,
    add_future, modify, ret.
  cbn [trace with_trace worker_session work_request_map].
  env_cases env; cbn [fst].
  - intros [= ->]. exists [Called (AddWorkerConnectEvent worker_id) (Raise e)].
    eexists. split; [reflexivity|]. cbn [removelast]. rewrite app_nil_r.
    eassumption.
  - intros [= ->]. eexists [_; _], _. split; [emitted|].
    cbn [removelast]. eassumption.
  - unfold bind, get_state.
    match goal with
    | |- context [if ?b then _ else _] => destruct b
    end; cbn; discriminate.
Qed.

(** X14.  If the connect event or the first store of the session raises
    an [Exception], the handler arms no future and enters nothing in the
    ledger; the recovery pass finds nothing to reset or abort, and the
    clean-up closes the queue client, deletes the session and closes the
    websocket, with nothing to cancel.  The handler then returns. *)
Theorem failed_startup_only_cleans_up
    (env : environment) (worker_id : string) (worker_config : WorkerConfig)
    (script : list cycle) (e : exn) :
  fst (startup env worker_id worker_config initial_state) = Exc e ->
  raises_only_Exception env ->
  let out := handle_worker env worker_id worker_config script initial_state in
  fst out = Val tt
  /\ pending_futures (snd out) = []
  /\ work_request_map (snd out) = Dict.empty
  /\ attempted (trace (snd out))
     = attempted (trace (snd (startup env worker_id worker_config
                                initial_state)))
       ++ [RedisClose; DeleteWorkerSession worker_id; WebsocketClose].
Proof.
  intros Hstart Honly. cbv zeta.
  destruct (startup_raises _ _ _ _ Hstart) as (d & c & Hrun & Henv).
  pose proof (Honly _ _ _ Henv) as He.
  unfold handle_worker, guarded, connection, try_finally, try_except, bind.
  rewrite Hrun, He.
  unfold recovery_handler, bind, log, modify, get_state.
  change (Dict.values (work_request_map (with_trace
            (trace (with_trace (trace initial_state ++ d) initial_state)
             ++ [Logged (LogHandlerError (str e))])
            (with_trace (trace initial_state ++ d) initial_state))))
    with (@nil WorkRequestContainer).
  cbn [recover_all]. unfold ret.
  match goal with
  | |- context [cleanup env worker_id ?st] =>
      destruct (cleans_cleanup env worker_id st)
        as (r2 & d2 & Hrun2 & _ & _ & _ & Honly2)
  end.
  destruct (Honly2 Honly) as [-> Hcalls].
  unfold emits in Hrun2. rewrite Hrun2.
  cbn [fst snd trace with_trace pending_futures work_request_map
       initial_state app].
  repeat split.
  rewrite !attempted_app, Hcalls.
  unfold cleanup_calls. cbn [attempted flat_map app pending_futures map
                             with_trace initial_state].
  now rewrite app_nil_r.
Qed.

Lemma failed_startup_only_cleans_up_witness :
  let out :=
    handle_worker env_connect_event_fails "worker" one_at_a_time []
      initial_state in
  fst out = Val tt
  /\ pending_futures (snd out) = []
  /\ work_request_map (snd out) = Dict.empty
  /\ attempted (trace (snd out))
     = [AddWorkerConnectEvent "worker"; RedisClose;
        DeleteWorkerSession "worker"; WebsocketClose].
Proof.
  refine (@failed_startup_only_cleans_up env_connect_event_fails "worker"
            one_at_a_time [] (ExternalError "database unavailable") _ _).
  - reflexivity.
  - intros tr c e. destruct c; cbn; intros H; try discriminate H;
      now injection H as <-.
Defined.

(** ** Messages the queue delivers again *)

Lemma kept_unique {A} (m : M A) (s : state) :
  ledger_grows_by m [] ->
  unique_message_ids s ->
  unique_message_ids (snd (m s)).
Proof.
  unfold unique_message_ids. intros Hgrow Huniq.
  rewrite (NoDup_count_occ string_dec) in *. intros x.
  specialize (Hgrow s x). specialize (Huniq x).
  unfold occurrences in Hgrow. cbn [count_occ] in Hgrow. lia.
Qed.

Section Redelivery.

Variable env : environment.
Variable worker_id : string.
Variable worker_config : WorkerConfig.

Lemma for_done_keeps_unique (done : list (future * completion))
    (s : state) :
  unique_message_ids s ->
  refused_in_done env worker_id worker_config done s ->
  unique_message_ids (snd (for_done env worker_id worker_config done s)).
Proof.
  revert s. induction done as [|[f c] rest IH]; intros s Huniq Href.
  - exact Huniq.
  - cbn [refused_in_done] in Href. destruct Href as [Hc Hrest].
    pose proof (@process_keeps_unique env worker_id worker_config s c
                  Huniq Hc) as Hstep.
    cbn [for_done]. unfold bind.
    destruct (process env worker_id worker_config c s) as [[u|e|] s1];
      cbn [snd] in *; [now apply IH | exact Hstep | exact Hstep].
Qed.

Lemma turn_keeps_unique (c : cycle) (s : state) :
  unique_message_ids s ->
  (client_disconnected c = false ->
   forall done,
     waited c = WaitDone done ->
     refused_in_done env worker_id worker_config done
       (still_pending done s)) ->
  unique_message_ids (snd (main_loop env worker_id worker_config [c] s)).
Proof.
  intros Huniq Href. rewrite main_loop_single.
  destruct (client_disconnected c); [exact Huniq|].
  destruct (waited c) as [e|done]; [exact Huniq|].
  specialize (Href eq_refl done eq_refl).
  assert (Hstill : unique_message_ids (still_pending done s)) by exact Huniq.
  pose proof (@for_done_keeps_unique done (still_pending done s)
                  Hstill Href) as Hdone.
  unfold bind.
  destruct (for_done env worker_id worker_config done (still_pending done s))
    as [[u|e|] s1]; cbn [snd] in *; [|exact Hdone..].
  destruct done; [|exact Hdone].
  unfold ext. now destruct (env (trace s1) SendPing).
Qed.

Lemma run_keeps_unique (script : list cycle) (s : state) :
  unique_message_ids s ->
  refuses_redelivery env worker_id worker_config script s ->
  unique_message_ids (snd (main_loop env worker_id worker_config script s)).
Proof.
  revert s. induction script as [|c rest IH]; intros s Huniq Href.
  - exact Huniq.
  - cbn [refuses_redelivery] in Href. destruct Href as [Hc Hrest].
    pose proof (@turn_keeps_unique c s Huniq Hc) as Hturn.
    rewrite main_loop_cons.
    destruct (main_loop env worker_id worker_config [c] s)
      as [[u|e|] s1]; cbn [snd] in *; [exact Hturn | exact Hturn|].
    now apply IH.
Qed.

Lemma refuses_redelivery_firstn (n : nat) (script : list cycle) (s : state) :
  refuses_redelivery env worker_id worker_config script s ->
  refuses_redelivery env worker_id worker_config (firstn n script) s.
Proof.
  revert script s. induction n as [|n IH]; intros [|c rest] s Href;
    cbn [firstn refuses_redelivery] in *; auto.
  destruct Href as [Hc Hrest]. split; [exact Hc|].
  destruct (main_loop env worker_id worker_config [c] s) as [[u|e|] s1];
    auto.
Qed.

End Redelivery.

(** X15.  The handler never compares message ids, so that no message id
    is in two entries of the ledger rests on [start_work]: if
    [start_work] raises for every dequeued message whose id is in the
    ledger at the time the loop dispatches it, then at every point of
    the connection (after any number of turns of the loop, and after
    the recovery pass and the clean-up when the loop has ended) the
    message ids of the ledger's entries are pairwise distinct. *)
Theorem message_ids_unique_while_redelivery_refused
    (env : environment) (worker_id : string) (worker_config : WorkerConfig)
    (script : list cycle) :
  redelivery_refused env worker_id worker_config script ->
  forall n,
    ledger_uniqueness env worker_id worker_config (firstn n script).
Proof.
  intros Href n. unfold ledger_uniqueness, handle_worker.
  destruct (guarded_state env worker_id
              (connection env worker_id worker_config (firstn n script))
              initial_state) as [t ->].
  change (unique_message_ids
            (snd (connection env worker_id worker_config (firstn n script)
                    initial_state))).
  assert (Hstart :
    unique_message_ids
      (snd (startup env worker_id worker_config initial_state))).
  { apply kept_unique; [apply grows_startup | constructor]. }
  unfold redelivery_refused in Href. unfold connection, bind.
  destruct (startup env worker_id worker_config initial_state)
    as [[u|e|] s1]; cbn [snd] in *; [|exact Hstart..].
  apply run_keeps_unique; [exact Hstart|].
  now apply refuses_redelivery_firstn.
Qed.

Lemma message_ids_unique_while_redelivery_refused_witness :
  dequeued same_message_twice = ["A"; "A"]
  /\ in_flight (snd (handle_worker env_refuses_started "worker"
                       two_at_a_time same_message_twice initial_state))
     = ["A"]
  /\ ledger_uniqueness env_refuses_started "worker" two_at_a_time
       same_message_twice.
Proof.
  split; [reflexivity|]. split; [reflexivity|].
  refine (@message_ids_unique_while_redelivery_refused env_refuses_started
            "worker" two_at_a_time same_message_twice _ 2).
  unfold redelivery_refused. cbn [startup].
  repeat split; try discriminate.
  - intros _ done [= <-]. cbn. split; [intros []|]. exact I.
  - intros _ done [= <-]. split; [|exact I].
    intros _. eexists. reflexivity.
Defined.

